(** * Speech emotion recognition: a shallow embedding and its properties

    The development follows the repository component by component.  Part I
    holds the embedding, Part II the properties.

    - [Uploader] embeds [handleFile], [handleDrop], [handleChange],
      [handleAnalyze] and [clearFile] of
      [frontend/components/AudioUploader.tsx] as functions on the component
      state, and a session as a list of events.
    - [Home] embeds [handleAnalysisComplete] of [frontend/app/page.tsx].
    - [Binary64] is the arithmetic of binary64 numbers: the exact result
      of an operation, rounded to nearest.
    - [Scorer] is the satisfaction score: the base-score table and the
      blending formula of [docs/MODEL.md], and the construction of a
      prediction from a probability vector (inference pipeline, steps 4
      and 5).
    - [Normalizer] is the preprocessing pipeline of the dataset
      documentation: load, normalize, pad or trim.
    - [Features] is step 3 of the inference pipeline: the two
      representations stacked and transposed, then standardized.
    - [Classifier] is the output side of the network: the dense head and
      its softmax layer.
    - [Trainer] is the split strategy of the dataset documentation: two
      calls of the library's stratified splitter.
    - [Results] embeds [EMOTION_CONFIG], [chartData],
      [getSatisfactionLevel] and the sorted probability list of
      [frontend/components/EmotionResults.tsx].
    - [Dashboard] embeds the statistics of the Dashboard component
      (second part of [frontend/app/page.tsx]).
    - [Drag] holds [handleDrag] and what a session of the uploader offers
      and accepts.
    - [App] is the page as a whole: the tabs, the uploader mounted on the
      analyze tab, the requests in flight and the replies to them.

    [Scorer], [Normalizer], [Features], [Classifier] and [Trainer] are
    embedded from the repository's documentation: what it gives as code is
    embedded as written, and what only the specification describes is
    marked "Modelled from the spec".  Functions of third-party libraries
    (the audio decoder, the cepstral and mel extractors, the convolutional
    and recurrent layers, the splitter) are parameters.

    Numbers.  A floating-point number is held as the rational it denotes
    ([Q]).  Where a property depends on rounding, the operations are those
    of [Binary64], which round: the binary64 score [Scorer.score64], the
    slices of [Results.chartData] and the average of the dashboard.
    Elsewhere the arithmetic is exact and rounding is not modelled:
    [Scorer.score] and [Normalizer.normalize] compute in [Q], and features
    and activations are real numbers ([R]) because they involve
    exponentials and square roots.  A division by zero is a number in [Q]
    and [R]; [Normalizer.normalize_np] divides as numpy does and shows
    that the pipeline never meets one.  [File.size] is a non-negative
    integer number of bytes, modelled in [Z].

    Strings.  JavaScript strings are modelled as [string]; the embedded
    code only compares strings exactly and tests a suffix without regard to
    the case of ASCII letters, and neither depends on how characters
    outside ASCII are encoded. *)

From Stdlib Require Import List Bool Arith ZArith Lia.
From Stdlib Require Import Ascii String.
From Stdlib Require Import QArith Qabs Qround Qpower Reals Psatz.
From Stdlib Require Import Permutation Sorted.
Import ListNotations.
Close Scope Q_scope.
Close Scope R_scope.

(* ================================================================= *)
(** * Part I: the embedding *)
(* ================================================================= *)

(** ** frontend/components/AudioUploader.tsx *)

Module Uploader.

(** The three fields of a DOM [File] that the component reads. *)
Record File : Type := mkFile {
  name : string;
  type : string;
  size : Z
}.

(** The component state: the four [useState] cells. *)
Record State : Type := mkState {
  file : option File;
  loading : bool;
  error : option string;
  dragActive : bool
}.

Definition initial : State :=
  {| file := None; loading := false; error := None; dragActive := false |}.

Definition setFile (v : option File) (st : State) : State :=
  {| file := v; loading := loading st; error := error st;
     dragActive := dragActive st |}.

Definition setLoading (v : bool) (st : State) : State :=
  {| file := file st; loading := v; error := error st;
     dragActive := dragActive st |}.

Definition setError (v : option string) (st : State) : State :=
  {| file := file st; loading := loading st; error := v;
     dragActive := dragActive st |}.

Definition setDragActive (v : bool) (st : State) : State :=
  {| file := file st; loading := loading st; error := error st;
     dragActive := v |}.

(** [const validTypes = [...]] *)
Definition validTypes : list string :=
  ["audio/wav"; "audio/mpeg"; "audio/mp3"; "audio/flac"; "audio/ogg"]%string.

(** [Array.prototype.includes] on strings: strict equality with some
    element. *)
Definition includes (l : list string) (s : string) : bool :=
  existsb (String.eqb s) l.

(** Case folding of the [i] flag.  For a pattern made of ASCII characters
    only the ASCII letters fold; every other code unit is left alone. *)
Definition lowerAscii (c : ascii) : ascii :=
  let n := nat_of_ascii c in
  if (65 <=? n)%nat && (n <=? 90)%nat then ascii_of_nat (n + 32) else c.

Fixpoint lower (s : string) : string :=
  match s with
  | EmptyString => EmptyString
  | String c r => String (lowerAscii c) (lower r)
  end.

(** [endsWith suffix s]: the matcher tries every start position of [s] and
    succeeds at one from which [suffix] runs exactly to the end of the
    input. *)
Fixpoint endsWith (suffix s : string) : bool :=
  String.eqb s suffix ||
  match s with
  | EmptyString => false
  | String _ r => endsWith suffix r
  end.

(** The alternatives of the group [(wav|mp3|flac|ogg)]. *)
Definition extensions : list string := ["wav"; "mp3"; "flac"; "ogg"]%string.

(** [file.name.match(/\.(wav|mp3|flac|ogg)$/i)] as a truth value: a literal
    dot, one of the alternatives, then the end of the input, letters
    compared without case. *)
Definition matchesExtension (fileName : string) : bool :=
  existsb (fun ext => endsWith (String "."%char ext) (lower fileName))
          extensions.

(** [10 * 1024 * 1024] *)
Definition maxSize : Z := 10 * 1024 * 1024.

Definition msgInvalidType : string :=
  "Please upload a valid audio file (WAV, MP3, FLAC, OGG)".

Definition msgTooLarge : string := "File size must be less than 10MB".

Definition handleFile (f : File) (st : State) : State :=
  if negb (includes validTypes (type f)) && negb (matchesExtension (name f))
  then setError (Some msgInvalidType) st
  else if (size f >? maxSize)%Z
  then setError (Some msgTooLarge) st
  else setError None (setFile (Some f) st).

(** [e.dataTransfer.files] and [e.target.files] are file lists; only the
    first entry is looked at. *)
Definition handleDrop (files : list File) (st : State) : State :=
  let st := setDragActive false st in
  match files with
  | f :: _ => handleFile f st
  | [] => st
  end.

Definition handleChange (files : list File) (st : State) : State :=
  match files with
  | f :: _ => handleFile f st
  | [] => st
  end.

Definition clearFile (st : State) : State :=
  setError None (setFile None st).

(** The outcome of [axios.post]: the response body, or a rejection that may
    carry a string as [err.response.data.detail] ([None] when a link of the
    optional chain is missing). *)
Inductive Reply (R : Type) : Type :=
| Fulfilled (data : R)
| Rejected (detail : option string).
Arguments Fulfilled {R} data.
Arguments Rejected {R} detail.

Definition msgAnalyzeFailed : string :=
  "Failed to analyze audio. Please try again.".

(** What one call of [handleAnalyze] does besides updating the state: the
    files posted to [/api/predict] and the value handed to
    [onAnalysisComplete]. *)
Record Effects (R : Type) : Type := mkEffects {
  posted : list File;
  completed : option R
}.
Arguments mkEffects {R} posted completed.
Arguments posted {R} e.
Arguments completed {R} e.

(** [handleAnalyze], from the click to the end of its [finally] block,
    with [post] giving the outcome of the request.  The source awaits that
    outcome, and other events can be handled in the meantime; a session
    of [Uploader] is one in which every request settles before the next
    event, and [App] lets the replies arrive at any time, using the two
    halves [handleAnalyze_start] and [handleAnalyze_settle] given below.
    [detail || '...'] takes the default also for an empty detail. *)
Definition handleAnalyze {R : Type} (post : File -> Reply R) (st : State)
  : State * Effects R :=
  match file st with
  | None => (st, mkEffects [] None)
  | Some f =>
      let st := setError None (setLoading true st) in
      match post f with
      | Fulfilled data =>
          (setLoading false st, mkEffects [f] (Some data))
      | Rejected detail =>
          let msg := match detail with
                     | Some (String c rest) => String c rest
                     | Some EmptyString | None => msgAnalyzeFailed
                     end in
          (setLoading false (setError (Some msg) st), mkEffects [f] None)
      end
  end.

(** [handleAnalyze] up to its [await]: nothing without a file; otherwise
    [loading] is set, the error cleared and the file posted. *)
Definition handleAnalyze_start (st : State)
  : State * option File :=
  match file st with
  | None => (st, None)
  | Some f => (setError None (setLoading true st), Some f)
  end.

(** [handleAnalyze] from its [await] on, in the component that is still
    mounted: the [catch] block after a rejection, then the [finally]
    block.  The value is what is handed to [onAnalysisComplete]. *)
Definition handleAnalyze_settle {R : Type} (reply : Reply R)
  (st : State) : State * option R :=
  match reply with
  | Fulfilled data => (setLoading false st, Some data)
  | Rejected detail =>
      let msg := match detail with
                 | Some (String c rest) => String c rest
                 | Some EmptyString | None => msgAnalyzeFailed
                 end in
      (setLoading false (setError (Some msg) st), None)
  end.

(** The user interactions that reach the handlers above. *)
Inductive Event : Type :=
| EvDrop (files : list File)
| EvChange (files : list File)
| EvClear
| EvAnalyze.

Definition step {R : Type} (post : File -> Reply R) (st : State) (ev : Event)
  : State * Effects R :=
  match ev with
  | EvDrop files => (handleDrop files st, mkEffects [] None)
  | EvChange files => (handleChange files st, mkEffects [] None)
  | EvClear => (clearFile st, mkEffects [] None)
  | EvAnalyze => handleAnalyze post st
  end.

(** A session: the final state and every file posted on the way, oldest
    first. *)
Fixpoint run {R : Type} (post : File -> Reply R) (st : State)
  (evs : list Event) : State * list File :=
  match evs with
  | [] => (st, [])
  | ev :: rest =>
      let '(st1, eff) := step post st ev in
      let '(st2, sent) := run post st1 rest in
      (st2, posted eff ++ sent)
  end.

(** The invariant of a session: the file held for submission is within the
    size limit. *)
Definition holdsChecked (st : State) : Prop :=
  forall f, file st = Some f -> (size f <= maxSize)%Z.

(** Two sample files: one of exactly the limit, with an upper-case
    extension and no MIME type, and one a byte above the limit. *)
Definition smallWav : File := mkFile "call.WAV" "" maxSize.
Definition largeWav : File := mkFile "call.wav" "audio/wav" (maxSize + 1).

End Uploader.

(** ** frontend/app/page.tsx *)

Module Home.

Section WithResult.

(** The response body of one analysis; the page treats it as opaque. *)
Variable Result : Type.

Record State : Type := mkState {
  results : option Result;
  history : list Result
}.

Definition initial : State := {| results := None; history := [] |}.

(** [Array.prototype.slice(0, n)] for [n >= 0]. *)
Definition slice0 (n : nat) (l : list Result) : list Result := firstn n l.

Definition handleAnalysisComplete (result : Result) (st : State) : State :=
  {| results := Some result;
     history := slice0 10 (result :: history st) |}.

(** The page after a sequence of completed analyses, oldest first. *)
Definition after (rs : list Result) : State :=
  fold_left (fun st r => handleAnalysisComplete r st) rs initial.

End WithResult.

Arguments results {Result} s.
Arguments history {Result} s.
Arguments initial {Result}.
Arguments handleAnalysisComplete {Result} result st.
Arguments after {Result} rs.

End Home.

(** ** The label space and the errors of the core *)

(** The seven emotion identifiers, in the order in which [/api/emotions]
    lists them (docs/MODEL.md, "Get Supported Emotions"). *)
Inductive Emotion : Type :=
| anger | disgust | fear | happiness | sadness | surprise | neutral.

Definition emotions : list Emotion :=
  [anger; disgust; fear; happiness; sadness; surprise; neutral].

(** The error kinds of the core (spec, section 7). *)
Inductive CoreError : Type :=
| UnsupportedFormatError
| EmptyAudioError
| FeatureExtractionError
| ModelNotLoadedError
| InsufficientDataError
| InvalidPredictionError.

(** ** Binary64 numbers

    A finite binary64 number is held as the rational it denotes, and an
    operation returns the exact result rounded to the nearest binary64
    number, ties to the even significand, as IEEE 754 prescribes.
    Overflow and the sign of zero are not modelled: the results formed
    below stay far from [2 ^ 1024], and none is divided by.  That [round]
    returns a binary64 number, that no binary64 number is nearer, and
    that it leaves a binary64 number as it is, are proved in
    [Binary64Facts]. *)

Module Binary64.

Local Open Scope Q_scope.

(** The exponent of the binade of [q]: [2 ^ ilog2 q <= |q| < 2 ^ (ilog2 q + 1)],
    for [q] other than zero. *)
Definition ilog2 (q : Q) : Z :=
  let k := (Z.log2 (Z.abs (Qnum q)) - Z.log2 (Z.pos (Qden q)))%Z in
  if Qle_bool (2 ^ k) (Qabs q) then k else (k - 1)%Z.

(** The exponent of the unit in the last place: a significand has 53 bits,
    and below [2 ^ -1022] the numbers are the multiples of [2 ^ -1074]. *)
Definition ulp_exponent (q : Q) : Z := Z.max (ilog2 q - 52) (-1074).

(** The nearest integer, the even one of two that are equally near. *)
Definition rne (x : Q) : Z :=
  let f := Qfloor x in
  match Qcompare (x - inject_Z f) (1 # 2) with
  | Lt => f
  | Gt => (f + 1)%Z
  | Eq => if Z.even f then f else (f + 1)%Z
  end.

Definition round (q : Q) : Q :=
  if Qeq_bool q 0 then 0
  else let ulp := 2 ^ ulp_exponent q in Qred (inject_Z (rne (q / ulp)) * ulp).

Definition add (x y : Q) : Q := round (x + y).
Definition sub (x y : Q) : Q := round (x - y).
Definition mul (x y : Q) : Q := round (x * y).
Definition div (x y : Q) : Q := round (x / y).

(** A binary64 number: [m * 2 ^ e] with a significand of at most 53 bits
    and an exponent not below that of the subnormal numbers. *)
Definition representable (q : Q) : Prop :=
  exists m e : Z, (Z.abs m < 2 ^ 53)%Z /\ (-1074 <= e)%Z /\
                  q == inject_Z m * 2 ^ e.

End Binary64.

(** ** SatisfactionScorer

    The scorer is given twice.  In [score] numbers are exact rationals:
    every decimal constant stands for the rational it denotes and the
    arithmetic does not round.  In [score64] the same validation and
    formula are evaluated on binary64 numbers, as the interpreter does. *)

Module Scorer.

Local Open Scope Q_scope.

(** The base-score table (docs/MODEL.md, "Emotion Classes"). *)
Definition base_score (e : Emotion) : Q :=
  match e with
  | happiness => 9.0
  | surprise => 7.0
  | neutral => 6.0
  | sadness => 3.0
  | fear => 2.5
  | disgust => 2.0
  | anger => 1.0
  end.

(** The response of one inference (docs/MODEL.md, "Response Fields"):
    the primary emotion, its confidence, and the probability of each
    emotion, keyed by emotion in label order. *)
Record PredictionResult : Type := mkPrediction {
  emotion : Emotion;
  confidence : Q;
  probabilities : list (Emotion * Q)
}.

(** [argmax]: the first index at which the maximum is attained ([0] on the
    empty vector, where the source function raises). *)
Fixpoint argmax_from (best : nat) (bestv : Q) (i : nat) (v : list Q) : nat :=
  match v with
  | [] => best
  | x :: r =>
      if Qlt_le_dec bestv x
      then argmax_from i x (S i) r
      else argmax_from best bestv (S i) r
  end.

Definition argmax (v : list Q) : nat :=
  match v with
  | [] => O
  | x :: r => argmax_from O x 1%nat r
  end.

(** [label_encoder.inverse_transform] *)
Definition inverse_transform (idx : nat) : Emotion := nth idx emotions neutral.

(** Step 4 and 5 of the inference pipeline (docs/MODEL.md, "Prediction" and
    "Output"), from the row of seven probabilities the model returns:
    [emotion_idx = argmax(predictions)],
    [emotion = label_encoder.inverse_transform([emotion_idx])],
    [confidence = predictions[0][emotion_idx]]. *)
Definition predict (predictions : list Q) : PredictionResult :=
  let emotion_idx := argmax predictions in
  {| emotion := inverse_transform emotion_idx;
     confidence := nth emotion_idx predictions 0;
     probabilities := combine emotions predictions |}.

Definition total (probs : list (Emotion * Q)) : Q :=
  fold_right Qplus 0 (map snd probs).

(** Modelled from the spec: the tolerance on the sum of a probability
    vector, 1e-3 (spec, section 8). *)
Definition tolerance : Q := 1e-3.

(** Modelled from the spec: a prediction is malformed when its
    probabilities do not sum to about 1 or its confidence is outside [0, 1]
    (spec, section 4.5). *)
Definition well_formed (p : PredictionResult) : bool :=
  Qle_bool (Qabs (total (probabilities p) - 1)) tolerance &&
  Qle_bool 0 (confidence p) && Qle_bool (confidence p) 1.

(** The blending formula (docs/MODEL.md, "Satisfaction Score Calculation"):
    [base_score * confidence + 5.0 * (1 - confidence)]. *)
Definition blend (base confidence : Q) : Q :=
  base * confidence + 5.0 * (1 - confidence).

(** Modelled from the spec: [score(prediction)], which fails with
    [InvalidPredictionError] on a malformed prediction and otherwise blends
    the base score of the primary emotion with the neutral midpoint. *)
Definition score (p : PredictionResult) : CoreError + Q :=
  if well_formed p
  then inr (blend (base_score (emotion p)) (confidence p))
  else inl InvalidPredictionError.

(** Modelled from the spec: the sum of the probabilities as it is
    computed on binary64 numbers, added from the left starting from 0,
    every addition rounding its result. *)
Definition total64 (probs : list (Emotion * Q)) : Q :=
  fold_left Binary64.add (map snd probs) 0.

(** Modelled from the spec: the validation of [well_formed] on binary64
    numbers; the tolerance is the binary64 number nearest to 1e-3, and
    the comparisons are exact. *)
Definition well_formed64 (p : PredictionResult) : bool :=
  Qle_bool (Qabs (Binary64.sub (total64 (probabilities p)) 1))
           (Binary64.round tolerance) &&
  Qle_bool 0 (confidence p) && Qle_bool (confidence p) 1.

(** The blending formula (docs/MODEL.md, "Satisfaction Score
    Calculation") on binary64 numbers:
    [base_score * confidence + 5.0 * (1 - confidence)], each of the four
    operations rounding its result. *)
Definition blend64 (base confidence : Q) : Q :=
  Binary64.add (Binary64.mul base confidence)
               (Binary64.mul 5.0 (Binary64.sub 1 confidence)).

(** Modelled from the spec: [score(prediction)] on binary64 numbers. *)
Definition score64 (p : PredictionResult) : CoreError + Q :=
  if well_formed64 p
  then inr (blend64 (base_score (emotion p)) (confidence p))
  else inl InvalidPredictionError.

(** How far a binary64 score can be from the exact value of the formula:
    [2 ^ -47]. *)
Definition rounding : Q := 1 # 140737488355328.

(** End-to-end scenario 2 (spec, section 8), the probabilities in label
    order. *)
Definition scenario2 : list Q := [0.02; 0.01; 0.03; 0.89; 0.01; 0.03; 0.01].

(** Scenario 2 as binary64 numbers, with confidence [c] for happiness, and
    two adjacent binary64 numbers just above 0.89:
    [0x1.c7ae147ae147ep-1] and [0x1.c7ae147ae147fp-1]. *)
Definition scenario2_with (c : Q) : list Q :=
  map Binary64.round [0.02; 0.01; 0.03; c; 0.01; 0.03; 0.01].
Definition c_lo : Q := 4008203668359743 # 4503599627370496.
Definition c_hi : Q := 8016407336719487 # 9007199254740992.

End Scorer.

(** ** AudioNormalizer

    The preprocessing pipeline of the dataset documentation ("Data
    Preprocessing", "Our Pipeline"): load, normalize, pad or trim.  Samples
    are exact rationals.  The pipeline is given twice: [normalize] takes
    the quotient of two numbers to be a number, and [normalize_np] divides
    as numpy does, where a zero divisor yields [nan] or an infinity. *)

Module Normalizer.

Local Open Scope Q_scope.

(** [sr=22050] and [duration=3.0] of the call to [librosa.load]. *)
Definition sr : N := 22050.
Definition duration : N := 3.

(** Modelled from the spec: [max_length], the number of samples of the
    fixed target duration, 3.0 s at 22,050 Hz (spec, sections 3 and 4.1);
    the pipeline uses the name without defining it. *)
Definition max_length : nat := N.to_nat (sr * duration).

(** [1e-6] *)
Definition epsilon : Q := 1e-6.

(** What numpy's division of a sample by the divisor returns: a number, or
    one of the artifacts of a zero divisor. *)
Inductive Quotient : Type :=
| Number (q : Q)
| Inf (negative : bool)
| NaN.

(** numpy's [/] on two numbers: a zero divisor gives, with a warning and no
    exception, [nan] for a zero dividend and otherwise the infinity of the
    sign of the dividend. *)
Definition np_divide (x d : Q) : Quotient :=
  if Qeq_bool d 0
  then if Qeq_bool x 0 then NaN else Inf (negb (Qle_bool 0 x))
  else Number (x / d).

Section WithDecoder.

(** The file handed to [librosa.load]. *)
Variable Audio : Type.

(** The decoder and resampler behind [librosa.load]: the mono samples of the
    whole file at [sr] Hz, or [None] when the file cannot be decoded. *)
Variable decode : Audio -> option (list Q).

(** [librosa.load(file_path, sr=22050, duration=3.0)]: only the first
    [duration] seconds are loaded. *)
Definition load (file_path : Audio) : CoreError + list Q :=
  match decode file_path with
  | None => inl UnsupportedFormatError
  | Some samples => inr (firstn (N.to_nat (sr * duration)) samples)
  end.

(** [np.abs] *)
Definition np_abs (audio : list Q) : list Q := map Qabs audio.

Definition Qmax (x y : Q) : Q := if Qlt_le_dec x y then y else x.

(** [np.max]; it raises on an empty array. *)
Definition np_max (v : list Q) : option Q :=
  match v with
  | [] => None
  | x :: r => Some (fold_left Qmax r x)
  end.

(** [audio = audio / (np.max(np.abs(audio)) + 1e-6)] *)
Definition scale (audio : list Q) : CoreError + list Q :=
  match np_max (np_abs audio) with
  | None => inl EmptyAudioError
  | Some peak => inr (map (fun x => x / (peak + epsilon)) audio)
  end.

(** [np.pad(audio, (0, n))]: [n] zeros after the last sample. *)
Definition np_pad_tail (audio : list Q) (n : nat) : list Q :=
  audio ++ repeat 0 n.

(** The padding and trimming step. *)
Definition pad_or_trim (audio : list Q) : list Q :=
  if (List.length audio <? max_length)%nat
  then np_pad_tail audio (max_length - List.length audio)
  else firstn max_length audio.

Definition normalize (file_path : Audio) : CoreError + list Q :=
  match load file_path with
  | inl e => inl e
  | inr audio =>
      match scale audio with
      | inl e => inl e
      | inr audio => inr (pad_or_trim audio)
      end
  end.

(** The same three steps with numpy's division:
    [audio = audio / (np.max(np.abs(audio)) + 1e-6)], then the padding and
    trimming step, which appends the number zero. *)
Definition scale_np (audio : list Q) : CoreError + list Quotient :=
  match np_max (np_abs audio) with
  | None => inl EmptyAudioError
  | Some peak => inr (map (fun x => np_divide x (peak + epsilon)) audio)
  end.

Definition pad_or_trim_np (audio : list Quotient) : list Quotient :=
  if (List.length audio <? max_length)%nat
  then audio ++ repeat (Number 0) (max_length - List.length audio)
  else firstn max_length audio.

Definition normalize_np (file_path : Audio) : CoreError + list Quotient :=
  match load file_path with
  | inl e => inl e
  | inr audio =>
      match scale_np audio with
      | inl e => inl e
      | inr audio => inr (pad_or_trim_np audio)
      end
  end.

End WithDecoder.

Arguments load {Audio} decode file_path.
Arguments normalize {Audio} decode file_path.
Arguments normalize_np {Audio} decode file_path.

(** A result of [normalize] read as a result of [normalize_np]: the same
    error, or the same samples as numbers. *)
Definition as_numbers (r : CoreError + list Q) : CoreError + list Quotient :=
  match r with
  | inl e => inl e
  | inr out => inr (map Number out)
  end.

End Normalizer.

(** ** Arrays of real numbers

    Features and activations involve logarithms, exponentials and square
    roots; they are modelled as real numbers, and a two-dimensional array
    as the list of its rows. *)

Module Tensor.

Local Open Scope R_scope.

Definition Matrix : Type := list (list R).

(** An array of [rows] rows, each of [cols] entries. *)
Definition has_shape (rows cols : nat) (M : Matrix) : Prop :=
  List.length M = rows /\ Forall (fun r => List.length r = cols) M.

Definition sum (v : list R) : R := fold_right Rplus 0 v.

Definition dot (a b : list R) : R :=
  sum (map (fun xy => fst xy * snd xy) (combine a b)).

(** Column [j] of an array. *)
Definition column (j : nat) (M : Matrix) : list R :=
  map (fun row => nth j row 0) M.

(** [concatenate([a, b])] along the first axis. *)
Definition concatenate (a b : Matrix) : Matrix := a ++ b.

(** [transpose]: row [j] of the result is column [j] of the argument. *)
Definition transpose (M : Matrix) : Matrix :=
  match M with
  | [] => []
  | r :: _ => map (fun j => column j M) (seq 0 (List.length r))
  end.

End Tensor.

(** ** FeatureExtractor *)

Module Features.
Import Tensor.

Local Open Scope R_scope.

(** [n_mfcc: 40 coefficients] and [n_mels: 128 mel bands]
    (docs/MODEL.md, "Feature Extraction"). *)
Definition n_mfcc : nat := 40.
Definition n_mels : nat := 128.

Definition mean (v : list R) : R := sum v / INR (List.length v).

Definition std (v : list R) : R :=
  sqrt (mean (map (fun x => (x - mean v) * (x - mean v)) v)).

Section WithLibrosa.

(** The two extractors of the signal-processing library, each taking the
    number of coefficients or bands it is asked for: the cepstral
    coefficients and the mel spectrogram in dB, one row per coefficient or
    band and one column per time step. *)
Variable mfcc : nat -> list Q -> Matrix.
Variable melspectrogram_db : nat -> list Q -> Matrix.

(** Modelled from the spec: the minimum number of samples for one time
    step and the guard added to a column's standard deviation (spec,
    section 4.2); neither is given a value. *)
Variable min_window : nat.
Variable guard : R.

Definition extract_mfcc (audio : list Q) : Matrix := mfcc n_mfcc audio.

Definition extract_mel_spectrogram (audio : list Q) : Matrix :=
  melspectrogram_db n_mels audio.

(** Step 3 of the inference pipeline (docs/MODEL.md, "Feature
    Extraction"): [features = transpose(concatenate([mfcc, mel_spec]))]. *)
Definition combined (audio : list Q) : Matrix :=
  let mfcc := extract_mfcc audio in
  let mel_spec := extract_mel_spectrogram audio in
  let features := concatenate mfcc mel_spec in
  transpose features.

(** Modelled from the spec: per-feature-column z-score standardization,
    subtracting the column mean and dividing by the column standard
    deviation plus the guard (spec, section 4.2).  The quotient is that of
    the real numbers, also where the divisor is zero; only the shape of
    the result is used below, and it does not depend on the divisor. *)
Definition standardize (F : Matrix) : Matrix :=
  let mu := map mean (transpose F) in
  let sigma := map std (transpose F) in
  map (fun row =>
         map (fun xms => (fst xms - fst (snd xms)) / (snd (snd xms) + guard))
             (combine row (combine mu sigma)))
      F.

(** Modelled from the spec: [extract(clip)], which fails with
    [FeatureExtractionError] on a clip shorter than the minimum window and
    otherwise returns the standardized combined features (spec,
    section 4.2). *)
Definition extract (clip : list Q) : CoreError + Matrix :=
  if (List.length clip <? min_window)%nat
  then inl FeatureExtractionError
  else inr (standardize (combined clip)).

End WithLibrosa.

(** The shape an extractor of the library returns when asked for [n]
    rows: [n] rows and one column per time step of the clip. *)
Definition extractor_shape (f : nat -> list Q -> Matrix)
  (time_steps : list Q -> nat) : Prop :=
  forall n audio, has_shape n (time_steps audio) (f n audio).

(** A stand-in for an extractor of the library: [n] rows, and one time
    step per sample, all zero. *)
Definition flat (n : nat) (audio : list Q) : Matrix :=
  repeat (map (fun _ => 0) audio) n.

End Features.

(** ** EmotionClassifier *)

Module Classifier.
Import Tensor.

Local Open Scope R_scope.

Record DenseWeights : Type := mkDense {
  kernel : Matrix;
  bias : list R
}.

Record BatchNormWeights : Type := mkBatchNorm {
  gamma : list R;
  beta : list R;
  moving_mean : list R;
  moving_variance : list R;
  bn_epsilon : R
}.

Definition relu (x : R) : R := Rmax 0 x.

(** [softmax]: the normalized exponential. *)
Definition softmax (z : list R) : list R :=
  let total := sum (map exp z) in
  map (fun x => exp x / total) z.

(** [Dense(units, activation)]: the kernel has one row per input and
    [units] columns. *)
Definition Dense (units : nat) (activation : list R -> list R)
  (w : DenseWeights) (x : list R) : list R :=
  activation
    (map (fun j => dot x (column j (kernel w)) + nth j (bias w) 0)
         (seq 0 units)).

(** [BatchNormalization()] in inference mode. *)
Definition BatchNormalization (w : BatchNormWeights) (x : list R) : list R :=
  map (fun i =>
         nth i (gamma w) 0
         * ((nth i x 0 - nth i (moving_mean w) 0)
            / sqrt (nth i (moving_variance w) 0 + bn_epsilon w))
         + nth i (beta w) 0)
      (seq 0 (List.length x)).

(** [Dropout(rate)] in inference mode: the identity. *)
Definition Dropout (rate : R) (x : list R) : list R := x.

(** The weights of the fully-connected head. *)
Record HeadWeights : Type := mkHead {
  dense_1 : DenseWeights;
  batch_norm : BatchNormWeights;
  dense_2 : DenseWeights;
  dense_out : DenseWeights
}.

(** Section 3 of the architecture (docs/MODEL.md, "Dense Layers"). *)
Definition head (w : HeadWeights) (x : list R) : list R :=
  let x := Dense 128 (map relu) (dense_1 w) x in
  let x := BatchNormalization (batch_norm w) x in
  let x := Dropout 0.4 x in
  let x := Dense 64 (map relu) (dense_2 w) x in
  let x := Dropout 0.3 x in
  Dense 7 softmax (dense_out w) x.

Section WithStack.

Variable ClassifierWeights : Type.

(** The convolutional and recurrent blocks in inference mode, from the
    feature matrix to the final state of the second recurrent block. *)
Variable stack : ClassifierWeights -> Matrix -> list R.

Variable head_weights : ClassifierWeights -> HeadWeights.

(** Modelled from the spec: [infer(features, weights)], which fails with
    [ModelNotLoadedError] when the weights are absent (spec,
    section 4.3). *)
Definition infer (features : Matrix) (weights : option ClassifierWeights)
  : CoreError + list R :=
  match weights with
  | None => inl ModelNotLoadedError
  | Some w => inr (head (head_weights w) (stack w features))
  end.

End WithStack.

Arguments infer {ClassifierWeights} stack head_weights features weights.

End Classifier.

(** ** Trainer: the corpus split

    The split strategy of the dataset documentation ("Data Splits", "Our
    Split Strategy").  [X] and [y] are parallel arrays that the splitting
    function cuts at the same indices; the corpus is the list of the pairs
    [(X[i], y[i])]. *)

Module Trainer.

Local Open Scope Q_scope.

Definition Emotion_eq_dec (a b : Emotion) : {a = b} + {a <> b}.
Proof. decide equality. Defined.

Definition has_label {Item : Type} (c : Emotion) (s : Item * Emotion) : bool :=
  if Emotion_eq_dec (snd s) c then true else false.

(** The samples of class [c], in corpus order. *)
Definition members {Item : Type} (c : Emotion) (l : list (Item * Emotion))
  : list (Item * Emotion) :=
  filter (has_label c) l.

(** The corpus regrouped class by class, for the classes of [classes]. *)
Definition by_class {Item : Type} (classes : list Emotion)
  (l : list (Item * Emotion)) : list (Item * Emotion) :=
  List.concat (map (fun c => members c l) classes).

Definition count {Item : Type} (c : Emotion) (l : list (Item * Emotion)) : Z :=
  Z.of_nat (List.length (members c l)).

Definition size {Item : Type} (l : list (Item * Emotion)) : Z :=
  Z.of_nat (List.length l).

(** [train_test_split(X, y, test_size, random_state, stratify=y)] of the
    machine-learning library: the arguments are the corpus, the test
    fraction, the seed ([None] when no [random_state] is passed) and the
    state of the process-wide random generator; it returns the pair (train,
    test), or [None] when it raises, together with the state in which it
    leaves the process-wide generator. *)
Definition Splitter (Item Generator : Type) : Type :=
  list (Item * Emotion) -> Q -> option Z -> Generator ->
  option (list (Item * Emotion) * list (Item * Emotion)) * Generator.

(** What the library documents of a stratified split:
    - with an integer seed the outcome does not depend on the process-wide
      generator;
    - train and test together are the input, nothing lost or repeated;
    - the test part has [ceil(test_size * n)] samples;
    - each class has, in the test part, its proportional share of the test
      part's size, rounded to a neighbouring integer. *)
Record documented {Item Generator : Type} (tts : Splitter Item Generator)
  : Prop := {
  doc_seeded :
    forall data r seed g1 g2,
      fst (tts data r (Some seed) g1) = fst (tts data r (Some seed) g2);
  doc_partition :
    forall data r rs g train test,
      fst (tts data r rs g) = Some (train, test) ->
      Permutation (train ++ test) data;
  doc_size :
    forall data r rs g train test,
      fst (tts data r rs g) = Some (train, test) ->
      inject_Z (size data) * r <= inject_Z (size test) /\
      inject_Z (size test) < inject_Z (size data) * r + 1;
  doc_stratified :
    forall data r rs g train test,
      fst (tts data r rs g) = Some (train, test) ->
      forall c,
        (Z.abs (count c test * size data - size test * count c data)
         < size data)%Z
}.

Section WithSplitter.

Variable Item : Type.
Variable Generator : Type.
Variable train_test_split : Splitter Item Generator.

(** The two calls of the split strategy.  Modelled from the spec: a split
    that the library refuses is reported as [InsufficientDataError] (spec,
    section 4.4). *)
Definition split_corpus (corpus : list (Item * Emotion)) (g : Generator)
  : (CoreError +
     (list (Item * Emotion) * list (Item * Emotion) * list (Item * Emotion)))
    * Generator :=
  match train_test_split corpus 0.3 (Some 42%Z) g with
  | (None, g) => (inl InsufficientDataError, g)
  | (Some (train, temp), g) =>
      match train_test_split temp 0.5 (Some 42%Z) g with
      | (None, g) => (inl InsufficientDataError, g)
      | (Some (val, test), g) => (inr (train, val, test), g)
      end
  end.

End WithSplitter.

Arguments split_corpus {Item Generator} train_test_split corpus g.

(** *** A deterministic stratified splitter

    It cuts each class at its exact share and refuses the corpus when some
    share is not a whole number; it never looks at the seed or at the
    process-wide generator. *)

(** [test_size * k] when that is a whole number and [test_size] is a
    fraction between 0 and 1. *)
Definition share (r : Q) (k : nat) : option nat :=
  let p := Qnum r in
  let q := Zpos (Qden r) in
  if ((0 <=? p) && (p <=? q) && ((p * Z.of_nat k) mod q =? 0))%Z
  then Some (Z.to_nat (p * Z.of_nat k / q))
  else None.

Fixpoint split_classes {Item : Type} (r : Q) (classes : list Emotion)
  (data : list (Item * Emotion))
  : option (list (Item * Emotion) * list (Item * Emotion)) :=
  match classes with
  | [] => Some ([], [])
  | c :: rest =>
      match share r (List.length (members c data)),
            split_classes r rest data with
      | Some k, Some (train, test) =>
          Some (skipn k (members c data) ++ train,
                firstn k (members c data) ++ test)
      | _, _ => None
      end
  end.

Definition exact_split {Item Generator : Type} : Splitter Item Generator :=
  fun data r _ g =>
    match data with
    | [] => (None, g)
    | _ :: _ => (split_classes r emotions data, g)
    end.

(** A corpus of forty numbered samples: twenty happy, twenty sad. *)
Definition corpus40 : list (nat * Emotion) :=
  map (fun i => (i, happiness)) (seq 0 20)
  ++ map (fun i => (i, sadness)) (seq 20 20).

End Trainer.

(** ** frontend/components/EmotionResults.tsx *)

Module Results.

Local Open Scope string_scope.

(** The body of a response of [/api/predict] as the components read it
    ([EmotionResultsProps]).  [probabilities] is an object; it is held as
    the list of its entries in the order of [Object.entries].  A number is
    held as the rational it denotes; the components compare numbers, which
    is exact, and where they compute they round ([Binary64]). *)
Record Analysis : Type := mkAnalysis {
  emotion : string;
  confidence : Q;
  probabilities : list (string * Q);
  satisfaction_score : Q;
  timestamp : string
}.

(** An entry of [EMOTION_CONFIG]; the icon is a component, held by its
    name. *)
Record Config : Type := mkConfig {
  icon : string;
  color : string;
  label : string
}.

Definition EMOTION_CONFIG : list (string * Config) :=
  [ ("anger", mkConfig "AlertCircle" "#ef4444" "Anger");
    ("disgust", mkConfig "Frown" "#10b981" "Disgust");
    ("fear", mkConfig "AlertCircle" "#8b5cf6" "Fear");
    ("happiness", mkConfig "Smile" "#f59e0b" "Happiness");
    ("sadness", mkConfig "Frown" "#3b82f6" "Sadness");
    ("surprise", mkConfig "Zap" "#ec4899" "Surprise");
    ("neutral", mkConfig "Meh" "#6b7280" "Neutral") ].

(** [EMOTION_CONFIG[key]].  For a key that is not one of the seven the
    source obtains [undefined] or a member of [Object.prototype]; neither
    has a [label], [color] or [icon], and the component reads nothing
    else, so both are [None]. *)
Fixpoint lookup {V : Type} (key : string) (obj : list (string * V))
  : option V :=
  match obj with
  | [] => None
  | (k, v) :: rest => if String.eqb k key then Some v else lookup key rest
  end.

(** [x || d] where [x] is a string or [undefined]: the empty string is
    falsy. *)
Definition orElse (x : option string) (d : string) : string :=
  match x with
  | Some s => if String.eqb s "" then d else s
  | None => d
  end.

(** An element of [chartData]. *)
Record Slice : Type := mkSlice {
  slice_name : string;
  slice_value : Q;
  slice_color : string
}.

Definition chartData (probabilities : list (string * Q)) : list Slice :=
  map (fun kv =>
         let key := fst kv in
         let value := snd kv in
         {| slice_name := orElse (option_map label (lookup key EMOTION_CONFIG))
                                 key;
            slice_value := Binary64.mul value 100;
            slice_color := orElse (option_map color (lookup key EMOTION_CONFIG))
                                  "#6b7280" |})
      probabilities.

Definition EmotionIcon (emotion : string) : string :=
  orElse (option_map icon (lookup emotion EMOTION_CONFIG)) "User".

Definition emotionColor (emotion : string) : string :=
  orElse (option_map color (lookup emotion EMOTION_CONFIG)) "#6b7280".

Record Level : Type := mkLevel {
  level_label : string;
  level_color : string;
  level_bg : string
}.

Definition Excellent : Level := mkLevel "Excellent" "text-green-600" "bg-green-100".
Definition Good : Level := mkLevel "Good" "text-blue-600" "bg-blue-100".
Definition Fair : Level := mkLevel "Fair" "text-yellow-600" "bg-yellow-100".
Definition Poor : Level := mkLevel "Poor" "text-red-600" "bg-red-100".

Definition getSatisfactionLevel (score : Q) : Level :=
  if Qle_bool 8 score then Excellent
  else if Qle_bool 6 score then Good
  else if Qle_bool 4 score then Fair
  else Poor.

(** [Array.prototype.sort] with a consistent comparator: the sort is
    stable, so its result is the one sorted rearrangement that keeps equal
    elements in their order; insertion from the right computes it.
    [before x y] says that the comparator does not put [x] after [y]
    ([compare(x, y) <= 0]). *)
Fixpoint insertBy {A : Type} (before : A -> A -> bool) (x : A) (l : list A)
  : list A :=
  match l with
  | [] => [x]
  | y :: rest => if before x y then x :: y :: rest
                 else y :: insertBy before x rest
  end.

Definition sortBy {A : Type} (before : A -> A -> bool) (l : list A) : list A :=
  fold_right (insertBy before) [] l.

(** The comparator [([, a], [, b]) => b - a] on entries with rational
    values: [b - a <= 0]. *)
Definition descending {K : Type} (x y : K * Q) : bool :=
  Qle_bool (snd y) (snd x).

(** The rows of the probability list:
    [Object.entries(probabilities).sort(([, a], [, b]) => b - a)]. *)
Definition probabilityList (probabilities : list (string * Q))
  : list (string * Q) :=
  sortBy descending probabilities.

(** The first entry of largest value. *)
Fixpoint firstMax {K : Type} (l : list (K * Q)) : option (K * Q) :=
  match l with
  | [] => None
  | x :: rest =>
      match firstMax rest with
      | None => Some x
      | Some m => if Qle_bool (snd m) (snd x) then Some x else Some m
      end
  end.

(** The name under which the API reports a label. *)
Definition name (e : Emotion) : string :=
  match e with
  | anger => "anger"
  | disgust => "disgust"
  | fear => "fear"
  | happiness => "happiness"
  | sadness => "sadness"
  | surprise => "surprise"
  | neutral => "neutral"
  end.

End Results.

(** ** The Dashboard component (frontend/app/page.tsx, second part) *)

Module Dashboard.
Import Results.

Local Open Scope string_scope.

(** [Array.prototype.map] with the index. *)
Fixpoint mapi_from {A B : Type} (f : nat -> A -> B) (i : nat) (l : list A)
  : list B :=
  match l with
  | [] => []
  | x :: rest => f i x :: mapi_from f (S i) rest
  end.

Definition mapi {A B : Type} (f : nat -> A -> B) (l : list A) : list B :=
  mapi_from f 0 l.

(** Storing the next count of [key] in an object held as the list of its
    entries in insertion order: an absent key is appended with count 1, a
    present one is incremented in place. *)
Fixpoint increment (key : string) (acc : list (string * nat))
  : list (string * nat) :=
  match acc with
  | [] => [(key, 1)]
  | (k, n) :: rest =>
      if String.eqb k key then (k, n + 1) :: rest
      else (k, n) :: increment key rest
  end.

(** [acc[key] = (acc[key] || 0) + 1] on an object that started as [{}].
    The key ["__proto__"] is never stored: reading it gives
    [Object.prototype], and the assignment reaches the setter that
    [Object.prototype] has for it, which ignores a value that is not an
    object.  Every other key is stored.  The counts and the order of the
    entries are those of the source for keys that are neither array
    indices (which [Object.entries] lists first) nor names of members of
    [Object.prototype] (whose inherited value is not a number); the seven
    emotion names are such keys. *)
Definition bump (key : string) (acc : list (string * nat))
  : list (string * nat) :=
  if String.eqb key "__proto__" then acc else increment key acc.

Definition emotionCounts (history : list Analysis) : list (string * nat) :=
  fold_left (fun acc item => bump (emotion item) acc) history [].

(** The comparator [([, a], [, b]) => b - a] on counts. *)
Definition byCount (x y : string * nat) : bool := (snd y <=? snd x)%nat.

(** [Object.entries(emotionCounts).sort(...)[0]]; [None] is
    [undefined]. *)
Definition mostCommonEmotion (history : list Analysis)
  : option (string * nat) :=
  hd_error (sortBy byCount (emotionCounts history)).

Definition upperAscii (c : ascii) : ascii :=
  let n := nat_of_ascii c in
  if (97 <=? n)%nat && (n <=? 122)%nat then ascii_of_nat (n - 32) else c.

(** [emotion.charAt(0).toUpperCase() + emotion.slice(1)], for a string
    whose first character is in ASCII. *)
Definition capitalize (s : string) : string :=
  match s with
  | EmptyString => EmptyString
  | String c rest => String (upperAscii c) rest
  end.

Definition emotionData (history : list Analysis) : list (string * nat) :=
  map (fun ec => (capitalize (fst ec), snd ec)) (emotionCounts history).

(** [history.reduce((sum, item) => sum + item.satisfaction_score, 0)
    / totalAnalyses], each addition and the division rounding; the
    component returns before this on an empty history. *)
Definition avgSatisfaction (history : list Analysis) : Q :=
  Binary64.div
    (fold_left (fun sum item => Binary64.add sum (satisfaction_score item))
               history 0%Q)
    (inject_Z (Z.of_nat (List.length history))).

(** [history.slice(0, 10).reverse().map((item, index) => ...)] *)
Definition satisfactionTrend (history : list Analysis) : list (nat * Q) :=
  mapi (fun index item => (index + 1, satisfaction_score item))
       (rev (firstn 10 history)).

(** The rows of "Recent Analyses": [history.slice(0, 5)] with the number
    shown beside each. *)
Definition recentAnalyses (history : list Analysis) : list (nat * Analysis) :=
  mapi (fun index item => (index + 1, item)) (firstn 5 history).

(** What the component renders: the placeholder, the statistics, or a
    [TypeError] from reading [mostCommonEmotion[0]] of [undefined]. *)
Inductive View : Type :=
| NoDataYet
| Statistics (totalAnalyses : nat) (avg : Q) (mostCommon : string)
    (uniqueEmotions : nat) (bars : list (string * nat))
    (trend : list (nat * Q)) (recent : list (nat * Analysis))
| TypeError.

Definition render (history : list Analysis) : View :=
  match history with
  | [] => NoDataYet
  | _ :: _ =>
      match mostCommonEmotion history with
      | None => TypeError
      | Some most =>
          Statistics (List.length history) (avgSatisfaction history)
            (fst most) (List.length (emotionCounts history))
            (emotionData history) (satisfactionTrend history)
            (recentAnalyses history)
      end
  end.

(** [acc[key] || 0] *)
Definition countOf (key : string) (acc : list (string * nat)) : nat :=
  match lookup key acc with
  | Some n => n
  | None => 0
  end.

(** How often [key] is the emotion of an item. *)
Definition occurrences (key : string) (history : list Analysis) : nat :=
  List.length (filter (fun item => String.eqb (emotion item) key) history).

(** The items are responses of [/api/predict]: the emotion of each is
    one of the seven names. *)
Definition reported (history : list Analysis) : Prop :=
  Forall (fun item => In (emotion item) (map name emotions)) history.

(** A response whose emotion is not one of the seven names. *)
Definition protoCall : Analysis :=
  mkAnalysis "__proto__" 1 [("__proto__", 1%Q)] 5 "2025-12-18T04:33:00.000Z".

(** Three sample responses. *)
Definition happyCall : Analysis :=
  mkAnalysis "happiness" 0.89 [("happiness", 0.89%Q); ("neutral", 0.11%Q)]
             8.56 "2025-12-18T04:30:00.000Z".
Definition angryCall : Analysis :=
  mkAnalysis "anger" 0.5 [("anger", 0.5%Q); ("neutral", 0.5%Q)]
             3 "2025-12-18T04:31:00.000Z".
Definition calmCall : Analysis :=
  mkAnalysis "neutral" 1 [("neutral", 1%Q)] 6 "2025-12-18T04:32:00.000Z".

End Dashboard.

(** ** More of the uploader (frontend/components/AudioUploader.tsx) *)

Module Drag.
Import Uploader.

Local Open Scope string_scope.

(** [handleDrag], from the [type] of the drag event. *)
Definition handleDrag (eventType : string) (st : State) : State :=
  if String.eqb eventType "dragenter" || String.eqb eventType "dragover"
  then setDragActive true st
  else if String.eqb eventType "dragleave"
  then setDragActive false st
  else st.

(** What [handleFile] checks before it stores a file. *)
Definition accepted (f : File) : Prop :=
  (includes validTypes (type f) = true \/ matchesExtension (name f) = true)
  /\ (size f <= maxSize)%Z.

(** The file held by the component passed both checks of [handleFile]. *)
Definition holdsAccepted (st : State) : Prop :=
  forall f, file st = Some f -> accepted f.

(** The first files of the drop and change events of a session. *)
Fixpoint offered (evs : list Event) : list File :=
  match evs with
  | [] => []
  | EvDrop (f :: _) :: rest => f :: offered rest
  | EvChange (f :: _) :: rest => f :: offered rest
  | _ :: rest => offered rest
  end.

Definition analyzeCount (evs : list Event) : nat :=
  List.length (filter (fun ev => match ev with EvAnalyze => true | _ => false end)
                      evs).

End Drag.

(** ** The page as a whole (frontend/app/page.tsx)

    The uploader is rendered only on the analyze tab, with
    [handleAnalysisComplete] as its [onAnalysisComplete]; showing the
    dashboard unmounts it and drops its state, and showing the analyze tab
    again mounts a new one.  A request outlives the uploader that posted
    it: its reply can arrive at any later time, in any order with the
    replies to other requests, and then [onAnalysisComplete] is called
    whether or not that uploader is still mounted, while the updates of
    its state are lost when it is not.  The Analyze button is rendered
    [disabled] while [loading] holds, so a click on it reaches
    [handleAnalyze] only otherwise. *)

Module App.
Import Uploader.

Inductive Tab : Type := analyze | dashboard.

(** A request in flight: the uploader that awaits it, by the number of its
    mount, and the file posted. *)
Record Request : Type := mkRequest {
  origin : nat;
  sent : File
}.

(** The page: the state of [Home], the uploader while it is mounted, how
    many uploaders were mounted before it, and the requests in flight,
    oldest first. *)
Record State (R : Type) : Type := mkState {
  activeTab : Tab;
  page : Home.State R;
  uploader : option Uploader.State;
  mounts : nat;
  pending : list Request
}.
Arguments mkState {R} activeTab page uploader mounts pending.
Arguments activeTab {R} s.
Arguments page {R} s.
Arguments uploader {R} s.
Arguments mounts {R} s.
Arguments pending {R} s.

Definition initial {R : Type} : State R :=
  mkState analyze Home.initial (Some Uploader.initial) 0 [].

(** What happens on the page: a click on a tab, an interaction with the
    uploader, or the arrival of the reply to the [k]-th request in
    flight. *)
Inductive Event (R : Type) : Type :=
| SetActiveTab (tab : Tab)
| Upload (ev : Uploader.Event)
| Settle (k : nat) (reply : Reply R).
Arguments SetActiveTab {R} tab.
Arguments Upload {R} ev.
Arguments Settle {R} k reply.

(** The list without its [k]-th element. *)
Fixpoint remove_nth {A : Type} (k : nat) (l : list A) : list A :=
  match l, k with
  | [], _ => []
  | _ :: rest, O => rest
  | x :: rest, S k => x :: remove_nth k rest
  end.

Definition setUploader {R : Type} (u : option Uploader.State) (st : State R)
  : State R :=
  mkState (activeTab st) (page st) u (mounts st) (pending st).

(** One event of the page: the new state, the file posted and the response
    body handed to [onAnalysisComplete], if any.

    - [setActiveTab]: the two tabs render different components in the
      same place, so a change of tab unmounts one and mounts the other.
    - An interaction with the uploader reaches it only while it is
      mounted.  A click on Analyze does nothing while [loading] holds;
      otherwise [handleAnalyze] runs up to its [await], and the request
      is in flight.
    - The reply to a request in flight: after a fulfilled request
      [onAnalysisComplete] is called with the body; the state of the
      uploader that posted the request is updated if that uploader is
      still the one mounted. *)
Definition step {R : Type} (st : State R) (ev : Event R)
  : State R * Effects R :=
  match ev with
  | SetActiveTab analyze =>
      match activeTab st with
      | analyze => (st, mkEffects [] None)
      | dashboard =>
          (mkState analyze (page st) (Some Uploader.initial)
                   (S (mounts st)) (pending st),
           mkEffects [] None)
      end
  | SetActiveTab dashboard =>
      (mkState dashboard (page st) None (mounts st) (pending st),
       mkEffects [] None)
  | Upload uev =>
      match uploader st with
      | None => (st, mkEffects [] None)
      | Some u =>
          match uev with
          | EvDrop files =>
              (setUploader (Some (handleDrop files u)) st, mkEffects [] None)
          | EvChange files =>
              (setUploader (Some (handleChange files u)) st, mkEffects [] None)
          | EvClear =>
              (setUploader (Some (clearFile u)) st, mkEffects [] None)
          | EvAnalyze =>
              if loading u then (st, mkEffects [] None)
              else
                match handleAnalyze_start u with
                | (u', None) => (setUploader (Some u') st, mkEffects [] None)
                | (u', Some f) =>
                    (mkState (activeTab st) (page st) (Some u') (mounts st)
                             (pending st ++ [mkRequest (mounts st) f]),
                     mkEffects [f] None)
                end
          end
      end
  | Settle k reply =>
      match nth_error (pending st) k with
      | None => (st, mkEffects [] None)
      | Some request =>
          let page' :=
            match reply with
            | Fulfilled data => Home.handleAnalysisComplete data (page st)
            | Rejected _ => page st
            end in
          let uploader' :=
            match uploader st with
            | Some u =>
                if (origin request =? mounts st)%nat
                then Some (fst (handleAnalyze_settle reply u))
                else Some u
            | None => None
            end in
          (mkState (activeTab st) page' uploader' (mounts st)
                   (remove_nth k (pending st)),
           mkEffects [] (match reply with
                         | Fulfilled data => Some data
                         | Rejected _ => None
                         end))
      end
  end.

(** A session: the final state, the files posted and the response bodies
    handed to [onAnalysisComplete], each oldest first. *)
Fixpoint run {R : Type} (st : State R) (evs : list (Event R))
  : State R * (list File * list R) :=
  match evs with
  | [] => (st, ([], []))
  | ev :: rest =>
      let '(st1, eff) := step st ev in
      let '(st2, (files, bodies)) := run st1 rest in
      (st2, (posted eff ++ files,
             match completed eff with
             | Some data => data :: bodies
             | None => bodies
             end))
  end.

(** What the invariant of a session says of a state of the page. *)
Record Invariant {R : Type} (st : State R) : Prop := mkInvariant {
  held_accepted : forall u, uploader st = Some u -> Drag.holdsAccepted u;
  history_short : (List.length (Home.history (page st)) <= 10)%nat;
  pending_known :
    Forall (fun request => (origin request <= mounts st)%nat /\
                           Drag.accepted (sent request)) (pending st);
  pending_distinct : NoDup (map origin (pending st));
  loading_pending :
    forall u, uploader st = Some u ->
      (loading u = true <-> In (mounts st) (map origin (pending st)))
}.

End App.

(* ================================================================= *)
(** * Part II: properties *)
(* ================================================================= *)

Module UploaderFacts.
Import Uploader.

Lemma includes_In (l : list string) (s : string) :
  includes l s = true <-> In s l.
Proof.
  unfold includes. rewrite existsb_exists. split.
  - intros [x [Hx He]]. apply String.eqb_eq in He. now subst.
  - intros H. exists s. split; [assumption | apply String.eqb_refl].
Qed.

Lemma endsWith_spec (suffix s : string) :
  endsWith suffix s = true <-> exists stem, s = (stem ++ suffix)%string.
Proof.
  induction s as [ | c r IH]; cbn [endsWith].
  - rewrite orb_false_r. split.
    + intros H. apply String.eqb_eq in H. subst. now exists EmptyString.
    + intros [stem H]. apply String.eqb_eq.
      destruct stem; simpl in H; [assumption | discriminate].
  - rewrite orb_true_iff, IH. split.
    + intros [H | [stem ->]].
      * apply String.eqb_eq in H. subst. now exists EmptyString.
      * now exists (String c stem).
    + intros [stem H]. destruct stem as [ | d stem]; simpl in H.
      * left. now apply String.eqb_eq.
      * right. exists stem. now injection H.
Qed.

Lemma matchesExtension_spec (fileName : string) :
  matchesExtension fileName = true <->
  exists stem ext,
    In ext extensions /\ lower fileName = (stem ++ "." ++ ext)%string.
Proof.
  unfold matchesExtension. rewrite existsb_exists. split.
  - intros [ext [Hin H]]. apply endsWith_spec in H. destruct H as [stem H].
    now exists stem, ext.
  - intros [stem [ext [Hin H]]]. exists ext. split; [assumption | ].
    apply endsWith_spec. now exists stem.
Qed.

Lemma handleFile_cases (f : File) (st : State) :
  (handleFile f st = setError (Some msgInvalidType) st /\
   includes validTypes (type f) = false /\
   matchesExtension (name f) = false) \/
  (handleFile f st = setError (Some msgTooLarge) st /\
   (size f > maxSize)%Z) \/
  (handleFile f st = setError None (setFile (Some f) st) /\
   (size f <= maxSize)%Z /\
   (includes validTypes (type f) = true \/
    matchesExtension (name f) = true)).
Proof.
  unfold handleFile.
  destruct (includes validTypes (type f)) eqn:Ht,
           (matchesExtension (name f)) eqn:Hn; simpl; auto;
    destruct (Z.gtb_spec (size f) maxSize) as [Hs | Hs]; auto;
    right; ((left; split; [reflexivity | lia]) ||
            (right; split; [reflexivity | split; [lia | auto]])).
Qed.

Lemma handleFile_holdsChecked (f : File) (st : State) :
  holdsChecked st -> holdsChecked (handleFile f st).
Proof.
  intros H g.
  destruct (handleFile_cases f st) as [[-> _] | [[-> _] | [-> [Hs _]]]];
    simpl; try apply H.
  intros [= <-]. exact Hs.
Qed.

Lemma step_holdsChecked {R : Type} (post : File -> Reply R)
  (st : State) (ev : Event) :
  holdsChecked st ->
  holdsChecked (fst (step post st ev)) /\
  Forall (fun f => (size f <= maxSize)%Z) (posted (snd (step post st ev))).
Proof.
  intros H. destruct ev as [files | files | | ]; simpl.
  - split; [ | constructor]. unfold handleDrop.
    destruct files; [exact H | now apply handleFile_holdsChecked].
  - split; [ | constructor]. unfold handleChange.
    destruct files; [exact H | now apply handleFile_holdsChecked].
  - split; [ | constructor]. intros g. simpl. discriminate.
  - unfold handleAnalyze. destruct (file st) as [f | ] eqn:Hf.
    + assert (Hs : (size f <= maxSize)%Z) by now apply H.
      destruct (post f) as [data | detail]; simpl;
        (split; [ | now repeat constructor]);
        intros g; simpl; rewrite Hf; intros [= <-]; exact Hs.
    + split; [exact H | constructor].
Qed.

Lemma run_posts_checked {R : Type} (post : File -> Reply R)
  (evs : list Event) (st : State) :
  holdsChecked st ->
  Forall (fun f => (size f <= maxSize)%Z) (snd (run post st evs)).
Proof.
  revert st. induction evs as [ | ev rest IH]; intros st H; simpl.
  - constructor.
  - destruct (step_holdsChecked post st ev H) as [H1 H2].
    destruct (step post st ev) as [st1 eff]; simpl in *.
    specialize (IH st1 H1).
    destruct (run post st1 rest) as [st2 sent]; simpl in *.
    apply Forall_app. now split.
Qed.

(** C8.  A file larger than 10 * 1024 * 1024 bytes is rejected by
    [handleFile]: an error message is set and the file held for submission
    is left as it was; consequently no session started from the initial
    state ever posts a file above the ceiling.  A file at or below the
    ceiling whose type or name is accepted is retained, the error is
    cleared, and the next [handleAnalyze] posts exactly that file. *)
Theorem oversize_rejected_within_limit_retained
  (R : Type) (post : File -> Reply R) :
  (forall f st, (size f > maxSize)%Z ->
     (exists msg, error (handleFile f st) = Some msg) /\
     file (handleFile f st) = file st) /\
  (forall evs f, In f (snd (run post initial evs)) ->
     (size f <= maxSize)%Z) /\
  (forall f st, (size f <= maxSize)%Z ->
     includes validTypes (type f) = true \/
     matchesExtension (name f) = true ->
     file (handleFile f st) = Some f /\
     error (handleFile f st) = None /\
     posted (snd (handleAnalyze post (handleFile f st))) = [f]).
Proof.
  split; [ | split].
  - intros f st Hs.
    destruct (handleFile_cases f st) as [[-> _] | [[-> _] | [_ [Hle _]]]].
    + split; [now exists msgInvalidType | reflexivity].
    + split; [now exists msgTooLarge | reflexivity].
    + lia.
  - intros evs f Hin.
    assert (H0 : holdsChecked initial) by (intros g; discriminate).
    pose proof (run_posts_checked post evs initial H0) as Hall.
    rewrite Forall_forall in Hall. now apply Hall.
  - intros f st Hs Hok.
    destruct (handleFile_cases f st)
      as [[_ [Ht Hn]] | [[_ Hgt] | [-> _]]].
    + destruct Hok as [Hok | Hok]; congruence.
    + lia.
    + repeat split. unfold handleAnalyze. simpl.
      now destruct (post f).
Qed.

Lemma oversize_rejected_within_limit_retained_witness :
  ((exists msg, error (handleFile largeWav initial) = Some msg) /\
   file (handleFile largeWav initial) = file initial) /\
  (size smallWav <= maxSize)%Z /\
  (file (handleFile smallWav initial) = Some smallWav /\
   error (handleFile smallWav initial) = None /\
   posted (snd (handleAnalyze (fun _ => @Rejected unit None)
                  (handleFile smallWav initial))) = [smallWav]).
Proof.
  pose proof (oversize_rejected_within_limit_retained unit
                (fun _ => Rejected None)) as [Hbig [Hrun Hsmall]].
  split; [ | split].
  - apply Hbig. vm_compute. reflexivity.
  - apply (Hrun [EvDrop [largeWav]; EvChange [smallWav]; EvAnalyze]).
    vm_compute. left. reflexivity.
  - apply Hsmall.
    + vm_compute. discriminate.
    + right. vm_compute. reflexivity.
Defined.

(** C10, as stated, fails: a file with an allowed MIME type and an allowed
    extension is still refused when it is one byte above the ceiling. *)
Lemma allowed_type_and_name_refused_when_oversized :
  includes validTypes (type largeWav) = true /\
  matchesExtension (name largeWav) = true /\
  handleFile largeWav initial = setError (Some msgTooLarge) initial /\
  file (handleFile largeWav initial) = None.
Proof. vm_compute. repeat split. Qed.

(** C10, amended.  [handleFile] accepts a file (stores it and clears the
    error) exactly when its size is at most 10 MB and either its MIME type
    is one of the five listed types or its name, letters compared without
    case, ends in a dot followed by wav, mp3, flac or ogg.  So within the
    size limit an allowed extension suffices whatever the MIME type, and an
    allowed MIME type suffices whatever the name. *)
Theorem handleFile_accepts_iff (f : File) (st : State) :
  handleFile f st = setError None (setFile (Some f) st) <->
  (size f <= maxSize)%Z /\
  (In (type f)
      ["audio/wav"; "audio/mpeg"; "audio/mp3"; "audio/flac";
       "audio/ogg"]%string \/
   exists stem ext,
     In ext ["wav"; "mp3"; "flac"; "ogg"]%string /\
     lower (name f) = (stem ++ "." ++ ext)%string).
Proof.
  change ["wav"; "mp3"; "flac"; "ogg"]%string with extensions.
  change ["audio/wav"; "audio/mpeg"; "audio/mp3"; "audio/flac";
          "audio/ogg"]%string with validTypes.
  rewrite <- includes_In, <- matchesExtension_spec.
  destruct (handleFile_cases f st)
    as [[E [Ht Hn]] | [[E Hgt] | [E [Hle Hok]]]]; rewrite E.
  - split.
    + intros H. apply (f_equal error) in H. discriminate.
    + intros [_ [H | H]]; congruence.
  - split.
    + intros H. apply (f_equal error) in H. discriminate.
    + intros [H _]. lia.
  - split; [intros _; now split | reflexivity].
Qed.

Lemma handleFile_accepts_iff_witness :
  handleFile smallWav initial = setError None (setFile (Some smallWav) initial).
Proof.
  apply (proj2 (handleFile_accepts_iff smallWav initial)). split.
  - vm_compute. discriminate.
  - right. exists "call"%string, "wav"%string. split.
    + simpl. tauto.
    + reflexivity.
Defined.

End UploaderFacts.

Module HomeFacts.
Import Home.

Lemma firstn_cons_firstn {A : Type} (n : nat) (x : A) (l : list A) :
  firstn n (x :: firstn n l) = firstn n (x :: l).
Proof.
  destruct n as [ | k]; [reflexivity | ].
  change (x :: firstn k (firstn (S k) l) = x :: firstn k l).
  rewrite firstn_firstn. do 2 f_equal. lia.
Qed.

Lemma after_snoc {R : Type} (rs : list R) (r : R) :
  after (rs ++ [r]) = handleAnalysisComplete r (after rs).
Proof. unfold after. now rewrite fold_left_app. Qed.

Lemma history_after {R : Type} (rs : list R) :
  history (after rs) = firstn 10 (rev rs).
Proof.
  induction rs as [ | r rs IH] using rev_ind; [reflexivity | ].
  rewrite after_snoc, rev_app_distr. cbn [rev app].
  unfold handleAnalysisComplete, slice0. cbn [history].
  rewrite IH. apply firstn_cons_firstn.
Qed.

(** C9.  [handleAnalysisComplete] prepends the new result and cuts the
    list to ten entries; after any sequence of completed analyses the
    history is the ten most recent results, newest first, so its length is
    at most ten and its head is the latest result. *)
Theorem history_keeps_ten_latest {R : Type} (rs : list R) (r : R)
  (st : State R) :
  history (handleAnalysisComplete r st) = firstn 10 (r :: history st) /\
  history (after rs) = firstn 10 (rev rs) /\
  List.length (history (after rs)) <= 10 /\
  hd_error (history (after (rs ++ [r]))) = Some r.
Proof.
  split; [reflexivity | ]. split; [apply history_after | ]. split.
  - rewrite history_after. rewrite length_firstn. lia.
  - rewrite history_after, rev_app_distr. reflexivity.
Qed.

End HomeFacts.

Module Binary64Facts.
Import Binary64.
Local Open Scope Q_scope.

Lemma rne_error (x : Q) : Qabs (inject_Z (rne x) - x) <= 1 # 2.
Proof.
  unfold rne.
  pose proof (Qfloor_le x) as Hlo. pose proof (Qlt_floor x) as Hhi.
  rewrite inject_Z_plus in Hhi. change (inject_Z 1) with 1 in Hhi.
  set (f := Qfloor x) in *.
  apply Qabs_Qle_condition.
  destruct (Qcompare (x - inject_Z f) (1 # 2)) eqn:E.
  - apply Qeq_alt in E. destruct (Z.even f).
    + split; lra.
    + rewrite inject_Z_plus. change (inject_Z 1) with 1. split; lra.
  - apply Qlt_alt in E. split; lra.
  - apply Qgt_alt in E. rewrite inject_Z_plus. change (inject_Z 1) with 1.
    split; lra.
Qed.

Lemma pow2_pos (e : Z) : 0 < 2 ^ e.
Proof. apply Qpower_0_lt. reflexivity. Qed.

Lemma pow2_succ (e : Z) : 2 ^ (e + 1) == 2 * 2 ^ e.
Proof. rewrite Qpower_plus by discriminate. change (2 ^ 1) with 2. ring. Qed.

(** A positive integer lies between two consecutive powers of two. *)
Lemma log2_bounds (n : Z) :
  (0 < n)%Z -> 2 ^ Z.log2 n <= inject_Z n /\ inject_Z n < 2 ^ (Z.log2 n + 1).
Proof.
  intros Hn. destruct (Z.log2_spec n Hn) as [Hlo Hhi].
  pose proof (Z.log2_nonneg n) as H0.
  change 2 with (inject_Z 2).
  rewrite <- !Zpower_Qpower by lia.
  rewrite <- Zle_Qle, <- Zlt_Qlt. unfold Z.succ in Hhi. lia.
Qed.

Lemma Qabs_quotient (q : Q) :
  Qabs q == inject_Z (Z.abs (Qnum q)) / inject_Z (Z.pos (Qden q)).
Proof. destruct q as [n d]. cbn [Qabs Qnum Qden]. apply Qmake_Qdiv. Qed.

(** [ilog2 q] is the exponent of the binade of [q]. *)
Lemma ilog2_spec (q : Q) :
  ~ q == 0 -> 2 ^ ilog2 q <= Qabs q /\ Qabs q < 2 ^ (ilog2 q + 1).
Proof.
  intros Hq.
  assert (Hn : (0 < Z.abs (Qnum q))%Z).
  { destruct q as [[ | n | n] d]; cbn; try lia. exfalso. apply Hq. reflexivity. }
  destruct (log2_bounds _ Hn) as [Hnlo Hnhi].
  destruct (log2_bounds (Z.pos (Qden q))) as [Hdlo Hdhi]; [lia | ].
  pose proof (Qabs_quotient q) as Eq.
  set (n := inject_Z (Z.abs (Qnum q))) in *.
  set (d := inject_Z (Z.pos (Qden q))) in *.
  set (a := Z.log2 (Z.abs (Qnum q))) in *.
  set (b := Z.log2 (Z.pos (Qden q))) in *.
  assert (Hd : 0 < d).
  { unfold d. change 0 with (inject_Z 0). rewrite <- Zlt_Qlt. lia. }
  assert (Hk : 2 ^ (a - b) * 2 ^ b == 2 ^ a).
  { rewrite <- Qpower_plus by discriminate. now replace (a - b + b)%Z with a by lia. }
  pose proof (pow2_pos b) as Hb. pose proof (pow2_pos (a - b)) as Hab.
  pose proof (pow2_succ a) as Sa. pose proof (pow2_succ b) as Sb.
  pose proof (pow2_succ (a - b)) as Sab.
  pose proof (pow2_succ (a - b - 1)) as Sab1.
  replace (a - b - 1 + 1)%Z with (a - b)%Z in Sab1 by lia.
  assert (Hlt : Qabs q < 2 ^ (a - b + 1)).
  { rewrite Eq. apply Qlt_shift_div_r; [exact Hd | ].
    rewrite Sab. nra. }
  assert (Hge : 2 ^ (a - b - 1) <= Qabs q).
  { rewrite Eq. apply Qle_shift_div_l; [exact Hd | ].
    pose proof (pow2_pos (a - b - 1)). nra. }
  unfold ilog2. fold a b.
  destruct (Qle_bool (2 ^ (a - b)) (Qabs q)) eqn:E.
  - apply Qle_bool_iff in E. split; [exact E | exact Hlt].
  - assert (E' : Qabs q < 2 ^ (a - b)).
    { apply Qnot_le_lt. intros Hc. apply Qle_bool_iff in Hc. congruence. }
    split; [exact Hge | ]. now replace (a - b - 1 + 1)%Z with (a - b)%Z by lia.
Qed.

(** Rounding moves a number by at most half a unit in the last place. *)
Lemma round_half_ulp (q : Q) :
  Qabs (round q - q) <= 2 ^ ulp_exponent q * (1 # 2).
Proof.
  unfold round. destruct (Qeq_bool q 0) eqn:E.
  - apply Qeq_bool_eq in E.
    pose proof (pow2_pos (ulp_exponent q)).
    setoid_replace (0 - q) with 0 by lra. cbn [Qabs Z.abs]. lra.
  - cbn zeta. rewrite Qred_correct.
    pose proof (pow2_pos (ulp_exponent q)) as Hu.
    set (u := 2 ^ ulp_exponent q) in *.
    pose proof (rne_error (q / u)) as Hr.
    set (r := inject_Z (rne (q / u))) in *.
    assert (Eq : r * u - q == (r - q / u) * u) by (field; lra).
    rewrite Eq, Qabs_Qmult, (Qabs_pos u) by lra.
    rewrite (Qmult_comm u).
    apply Qmult_le_compat_r; [exact Hr | lra].
Qed.

(** Below [2 ^ k] the unit in the last place is at most [2 ^ (k - 53)]. *)
Lemma round_error (k : Z) (q : Q) :
  (-1021 <= k)%Z -> Qabs q < 2 ^ k ->
  Qabs (round q - q) <= 2 ^ (k - 54).
Proof.
  intros Hk Hq.
  destruct (Qeq_dec q 0) as [E | Hne].
  - unfold round. rewrite (proj2 (Qeq_bool_iff q 0) E).
    pose proof (pow2_pos (k - 54)).
    setoid_replace (0 - q) with 0 by lra. cbn [Qabs Z.abs]. lra.
  - pose proof (round_half_ulp q) as H.
    destruct (ilog2_spec q Hne) as [Hlo _].
    assert (Hi : (ilog2 q < k)%Z).
    { apply Qpower_lt_compat_l_inv with 2; [ | reflexivity].
      apply Qle_lt_trans with (Qabs q); assumption. }
    assert (He : (ulp_exponent q <= k - 53)%Z) by (unfold ulp_exponent; lia).
    pose proof (Qpower_le_compat_l 2 _ _ He ltac:(discriminate)) as Hp.
    pose proof (pow2_succ (k - 54)) as S.
    replace (k - 54 + 1)%Z with (k - 53)%Z in S by lia.
    lra.
Qed.

Lemma rne_inject_Z (x : Q) (z : Z) : x == inject_Z z -> rne x = z.
Proof.
  intros E. unfold rne.
  assert (Hf : Qfloor x = z) by (rewrite E; apply Qfloor_Z).
  rewrite Hf.
  assert (H : Qcompare (x - inject_Z z) (1 # 2) = Lt).
  { apply Qlt_alt. rewrite E. setoid_replace (inject_Z z - inject_Z z) with 0 by ring.
    reflexivity. }
  now rewrite H.
Qed.

(** Rounding leaves a binary64 number as it is. *)
Lemma round_representable (q : Q) : representable q -> round q == q.
Proof.
  intros [m [e [Hm [He Eq]]]].
  unfold round. destruct (Qeq_bool q 0) eqn:E0.
  - apply Qeq_bool_eq in E0. now rewrite E0.
  - cbn zeta. rewrite Qred_correct.
    assert (Hne : ~ q == 0).
    { intros Hc. apply Qeq_bool_iff in Hc. congruence. }
    destruct (ilog2_spec q Hne) as [Hlo _].
    assert (Habs : Qabs q < 2 ^ (e + 53)).
    { rewrite Eq, Qabs_Qmult, (Qabs_pos (2 ^ e)) by (apply Qlt_le_weak, pow2_pos).
      rewrite Qpower_plus by discriminate. rewrite (Qmult_comm (2 ^ e)).
      apply Qmult_lt_compat_r; [apply pow2_pos | ].
      change (Qabs (inject_Z m)) with (inject_Z (Z.abs m)).
      change (2 ^ 53) with (inject_Z (2 ^ 53)).
      now rewrite <- Zlt_Qlt. }
    assert (Hi : (ilog2 q < e + 53)%Z).
    { apply Qpower_lt_compat_l_inv with 2; [ | reflexivity].
      apply Qle_lt_trans with (Qabs q); assumption. }
    assert (Hu : (ulp_exponent q <= e)%Z) by (unfold ulp_exponent; lia).
    set (u := ulp_exponent q) in *.
    assert (Ee : 2 ^ e == inject_Z (2 ^ (e - u)) * 2 ^ u).
    { rewrite Zpower_Qpower by lia. change (inject_Z 2) with 2.
      rewrite <- Qpower_plus by discriminate. now replace (e - u + u)%Z with e by lia. }
    pose proof (pow2_pos u) as Hpu.
    rewrite (rne_inject_Z _ (m * 2 ^ (e - u))).
    + rewrite Eq, Ee, inject_Z_mult. ring.
    + rewrite Eq, Ee, inject_Z_mult. field. lra.
Qed.

(** The result of rounding is a binary64 number. *)
Lemma round_is_representable (q : Q) : representable (round q).
Proof.
  unfold round. destruct (Qeq_bool q 0) eqn:E0.
  - exists 0%Z, 0%Z. repeat split; try lia. 
  - cbn zeta.
    assert (Hne : ~ q == 0).
    { intros Hc. apply Qeq_bool_iff in Hc. congruence. }
    destruct (ilog2_spec q Hne) as [_ Hhi].
    set (u := ulp_exponent q).
    assert (Hu : (-1074 <= u)%Z /\ (ilog2 q + 1 <= u + 53)%Z)
      by (unfold u, ulp_exponent; lia).
    destruct Hu as [Hu1 Hu2].
    pose proof (pow2_pos u) as Hpu.
    pose proof (Qpower_le_compat_l 2 _ _ Hu2 ltac:(discriminate)) as Hp.
    rewrite (Qpower_plus 2 u 53) in Hp by discriminate.
    change (2 ^ 53) with (inject_Z 9007199254740992) in Hp.
    assert (Hx : Qabs (q / 2 ^ u) < inject_Z 9007199254740992).
    { unfold Qdiv. rewrite Qabs_Qmult, (Qabs_pos (/ 2 ^ u)).
      - apply Qlt_shift_div_r; [exact Hpu | ].
        apply Qlt_le_trans with (2 ^ (ilog2 q + 1)); [exact Hhi | ].
        rewrite (Qmult_comm _ (2 ^ u)). exact Hp.
      - apply Qlt_le_weak, Qinv_lt_0_compat, Hpu. }
    pose proof (rne_error (q / 2 ^ u)) as Hr.
    set (r := rne (q / 2 ^ u)) in *.
    assert (Hrb : (Z.abs r <= 2 ^ 53)%Z).
    { apply Qabs_Qle_condition in Hr. apply Qabs_Qlt_condition in Hx.
      destruct Hr as [Hr1 Hr2], Hx as [Hx1 Hx2].
      assert (H1 : inject_Z r < inject_Z (9007199254740992 + 1)).
      { rewrite inject_Z_plus. change (inject_Z 1) with 1. lra. }
      assert (H2 : inject_Z (- (9007199254740992 + 1)) < inject_Z r).
      { rewrite inject_Z_opp, inject_Z_plus. change (inject_Z 1) with 1. lra. }
      rewrite <- Zlt_Qlt in H1, H2.
      change (2 ^ 53)%Z with 9007199254740992%Z in *. lia. }
    destruct (Z.eq_dec (Z.abs r) (2 ^ 53)) as [Emax | Hlt].
    + exists (r / 2)%Z, (u + 1)%Z. split; [ | split; [lia | ]].
      * destruct (Z.abs_spec r) as [[_ E] | [_ E]]; rewrite E in Emax.
        -- rewrite Emax. reflexivity.
        -- replace r with (- 2 ^ 53)%Z by lia. reflexivity.
      * rewrite Qred_correct, pow2_succ.
        assert (E2 : inject_Z r == inject_Z (r / 2) * 2).
        { change 2 with (inject_Z 2). rewrite <- inject_Z_mult.
          apply inject_Z_injective.
          destruct (Z.abs_spec r) as [[_ E] | [_ E]]; rewrite E in Emax.
          - rewrite Emax. reflexivity.
          - replace r with (- 2 ^ 53)%Z by lia. reflexivity. }
        rewrite E2. ring.
    + exists r, u. split; [lia | split; [exact Hu1 | ]].
      apply Qred_correct.
Qed.

(** No integer is nearer than the one [rne] returns. *)
Lemma rne_nearest (x : Q) (z : Z) :
  Qabs (inject_Z (rne x) - x) <= Qabs (inject_Z z - x).
Proof.
  pose proof (Qfloor_le x) as Hlo. pose proof (Qlt_floor x) as Hhi.
  rewrite inject_Z_plus in Hhi. change (inject_Z 1) with 1 in Hhi.
  assert (Hz : inject_Z z <= inject_Z (Qfloor x) \/
               inject_Z (Qfloor x) + 1 <= inject_Z z).
  { destruct (Z.le_gt_cases z (Qfloor x)) as [H | H].
    - left. now rewrite <- Zle_Qle.
    - right. change 1 with (inject_Z 1). rewrite <- inject_Z_plus, <- Zle_Qle.
      lia. }
  unfold rne. set (f := Qfloor x) in *.
  assert (Hcases : forall a b : Q, Qabs a <= Qabs b <->
                     (- Qabs b <= a /\ a <= Qabs b)).
  { intros a b. apply Qabs_Qle_condition. }
  apply Hcases.
  assert (Hb : forall b : Q, (0 <= b -> Qabs b == b) /\ (b <= 0 -> Qabs b == - b)).
  { intros b. split; [apply Qabs_pos | apply Qabs_neg]. }
  destruct (Hb (inject_Z z - x)) as [Hp Hn].
  destruct (Qcompare (x - inject_Z f) (1 # 2)) eqn:E.
  - apply Qeq_alt in E. destruct (Z.even f).
    + destruct Hz as [Hz | Hz]; [rewrite Hn by lra | rewrite Hp by lra];
        split; lra.
    + rewrite inject_Z_plus. change (inject_Z 1) with 1.
      destruct Hz as [Hz | Hz]; [rewrite Hn by lra | rewrite Hp by lra];
        split; lra.
  - apply Qlt_alt in E.
    destruct Hz as [Hz | Hz]; [rewrite Hn by lra | rewrite Hp by lra];
      split; lra.
  - apply Qgt_alt in E. rewrite inject_Z_plus. change (inject_Z 1) with 1.
    destruct Hz as [Hz | Hz]; [rewrite Hn by lra | rewrite Hp by lra];
      split; lra.
Qed.

(** Among the multiples of the unit in the last place none is nearer. *)
Lemma round_nearest_multiple (q : Q) (z : Z) :
  ~ q == 0 ->
  Qabs (round q - q) <= Qabs (inject_Z z * 2 ^ ulp_exponent q - q).
Proof.
  intros Hne. unfold round.
  destruct (Qeq_bool q 0) eqn:E0;
    [apply Qeq_bool_eq in E0; contradiction | ].
  cbn zeta. rewrite Qred_correct.
  pose proof (pow2_pos (ulp_exponent q)) as Hu.
  set (u := 2 ^ ulp_exponent q) in *.
  pose proof (rne_nearest (q / u) z) as Hr.
  set (r := inject_Z (rne (q / u))) in *.
  assert (E1 : r * u - q == (r - q / u) * u) by (field; lra).
  assert (E2 : inject_Z z * u - q == (inject_Z z - q / u) * u)
    by (field; lra).
  rewrite E1, E2, !Qabs_Qmult, (Qabs_pos u) by lra.
  apply Qmult_le_compat_r; [exact Hr | lra].
Qed.

(** No binary64 number is nearer to [q] than [round q]. *)
Lemma round_nearest (q r : Q) :
  representable r -> Qabs (round q - q) <= Qabs (r - q).
Proof.
  intros [m [e [Hm [He Er]]]].
  destruct (Qeq_dec q 0) as [E0 | Hne].
  { unfold round. rewrite (proj2 (Qeq_bool_iff q 0) E0).
    setoid_replace (0 - q) with 0 by lra. apply Qabs_nonneg. }
  destruct (ilog2_spec q Hne) as [Hlo _].
  pose proof (pow2_pos (ulp_exponent q)) as Hu.
  destruct (Z_le_gt_dec (ulp_exponent q) e) as [Hue | Hue].
  - (* [r] is a multiple of the unit in the last place *)
    pose proof (round_nearest_multiple q (m * 2 ^ (e - ulp_exponent q)) Hne)
      as H.
    assert (Ee : 2 ^ e
                 == inject_Z (2 ^ (e - ulp_exponent q)) * 2 ^ ulp_exponent q).
    { rewrite Zpower_Qpower by lia. change (inject_Z 2) with 2.
      rewrite <- Qpower_plus by discriminate.
      now replace (e - ulp_exponent q + ulp_exponent q)%Z with e by lia. }
    assert (E : r == inject_Z (m * 2 ^ (e - ulp_exponent q))
                     * 2 ^ ulp_exponent q).
    { rewrite Er, Ee, inject_Z_mult. ring. }
    now rewrite E.
  - (* [r] lies below the binade of [q] *)
    assert (Eu : ulp_exponent q = (ilog2 q - 52)%Z)
      by (unfold ulp_exponent in *; lia).
    assert (Hb : 2 ^ ilog2 q == inject_Z (2 ^ 52) * 2 ^ ulp_exponent q).
    { rewrite Eu. change (inject_Z (2 ^ 52)) with (2 ^ 52).
      rewrite <- Qpower_plus by discriminate.
      now replace (52 + (ilog2 q - 52))%Z with (ilog2 q) by lia. }
    assert (Hr : Qabs r < 2 ^ ilog2 q).
    { rewrite Er, Qabs_Qmult, (Qabs_pos (2 ^ e))
        by (apply Qlt_le_weak, pow2_pos).
      apply Qlt_le_trans with (2 ^ 53 * 2 ^ e).
      - apply Qmult_lt_compat_r; [apply pow2_pos | ].
        change (Qabs (inject_Z m)) with (inject_Z (Z.abs m)).
        change (2 ^ 53) with (inject_Z (2 ^ 53)). now rewrite <- Zlt_Qlt.
      - rewrite <- Qpower_plus by discriminate.
        apply Qpower_le_compat_l; [lia | discriminate]. }
    pose proof (Qle_Qabs r) as Hr1.
    pose proof (Qle_Qabs (- r)) as Hr2. rewrite Qabs_opp in Hr2.
    destruct (Qlt_le_dec 0 q) as [Hpos | Hneg].
    + rewrite (Qabs_pos q) in Hlo by lra.
      pose proof (round_nearest_multiple q (2 ^ 52) Hne) as H.
      rewrite <- Hb in H.
      rewrite (Qabs_neg (2 ^ ilog2 q - q)) in H by lra.
      rewrite (Qabs_neg (r - q)) by lra. lra.
    + rewrite (Qabs_neg q) in Hlo by lra.
      pose proof (round_nearest_multiple q (- 2 ^ 52) Hne) as H.
      rewrite inject_Z_opp in H.
      setoid_replace (- inject_Z (2 ^ 52) * 2 ^ ulp_exponent q - q)
        with (- 2 ^ ilog2 q - q) in H by (rewrite Hb; ring).
      rewrite (Qabs_pos (- 2 ^ ilog2 q - q)) in H by lra.
      rewrite (Qabs_pos (r - q)) by lra. lra.
Qed.

End Binary64Facts.

Module ScorerFacts.
Import Scorer.
Local Open Scope Q_scope.

Lemma well_formed_spec (p : PredictionResult) :
  well_formed p = true <->
  Qabs (total (probabilities p) - 1) <= tolerance /\
  0 <= confidence p <= 1.
Proof.
  unfold well_formed. rewrite !andb_true_iff, !Qle_bool_iff. tauto.
Qed.

(** [argmax_from] returns an index whose entry is maximal, and the first
    such index. *)
Lemma argmax_from_spec (v : list Q) (best : nat) (bestv : Q) (i : nat) :
  let k := argmax_from best bestv i v in
  (k = best /\ Forall (fun x => x <= bestv) v) \/
  (exists j, k = (i + j)%nat /\ (j < List.length v)%nat /\
     bestv < nth j v 0 /\
     Forall (fun x => x <= nth j v 0) v /\
     forall j', (j' < j)%nat -> nth j' v 0 < nth j v 0).
Proof.
  revert best bestv i. induction v as [ | x r IH]; intros best bestv i.
  - left. split; [reflexivity | constructor].
  - cbn [argmax_from]. destruct (Qlt_le_dec bestv x) as [Hlt | Hle].
    + right. destruct (IH i x (S i)) as [[E Hall] | [j [E [Hj [Hb [Hall Hfirst]]]]]].
      * exists O. cbn zeta in E. rewrite E. cbn [nth List.length].
        repeat split; try lia; try assumption.
        constructor; [apply Qle_refl | assumption].
      * exists (S j). cbn zeta in E. rewrite E. cbn [nth List.length].
        repeat split; try lia.
        -- now apply Qlt_trans with x.
        -- constructor; [now apply Qlt_le_weak | assumption].
        -- intros [ | j'] Hj'; cbn [nth]; [assumption | apply Hfirst; lia].
    + destruct (IH best bestv (S i)) as [[E Hall] | [j [E [Hj [Hb [Hall Hfirst]]]]]].
      * left. split; [exact E | now constructor].
      * right. exists (S j). cbn zeta in E. rewrite E. cbn [nth List.length].
        repeat split; try lia; try assumption.
        -- constructor; [ | assumption].
           apply Qlt_le_weak. now apply Qle_lt_trans with bestv.
        -- intros [ | j'] Hj'; cbn [nth];
             [now apply Qle_lt_trans with bestv | apply Hfirst; lia].
Qed.

Lemma argmax_spec (v : list Q) :
  v <> [] ->
  (argmax v < List.length v)%nat /\
  Forall (fun x => x <= nth (argmax v) v 0) v /\
  forall j, (j < argmax v)%nat -> nth j v 0 < nth (argmax v) v 0.
Proof.
  destruct v as [ | x r]; [congruence | intros _].
  unfold argmax.
  destruct (argmax_from_spec r O x 1) as [[E Hall] | [j [E [Hj [Hb [Hall Hfirst]]]]]];
    cbn zeta in E; rewrite E; cbn [nth List.length].
  - repeat split; try lia.
    constructor; [apply Qle_refl | assumption].
  - repeat split; try lia.
    + constructor; [now apply Qlt_le_weak | assumption].
    + intros [ | j'] Hj'; cbn [nth]; [assumption | apply Hfirst; lia].
Qed.

Lemma total_combine (v : list Q) :
  List.length v = 7%nat ->
  total (combine emotions v) = fold_right Qplus 0 v.
Proof.
  intros Hlen.
  do 7 (destruct v as [ | ? v]; [discriminate | ]).
  destruct v; [reflexivity | discriminate].
Qed.

(** The prediction built from a probability vector is well formed. *)
Lemma predict_well_formed (v : list Q) :
  List.length v = 7%nat ->
  Forall (fun x => 0 <= x <= 1) v ->
  Qabs (fold_right Qplus 0 v - 1) <= tolerance ->
  well_formed (predict v) = true.
Proof.
  intros Hlen Hrange Hsum. apply well_formed_spec.
  cbn [predict probabilities confidence].
  rewrite total_combine by exact Hlen. split; [exact Hsum | ].
  assert (Hne : v <> []) by (intros E; rewrite E in Hlen; discriminate).
  destruct (argmax_spec v Hne) as [Hlt _].
  rewrite Forall_forall in Hrange. apply Hrange. now apply nth_In.
Qed.

(** C1.  On every well-formed prediction [score] returns
    [base_score(e) * c + 5.0 * (1 - c)] for its primary emotion [e] and
    confidence [c].  The prediction built from a non-empty vector has as
    primary emotion the label of the first maximal entry and as confidence
    that entry, and it is well formed when the vector has seven entries in
    [0, 1] summing to 1 within the tolerance, so that its score is given by
    the formula.  On the vector of scenario 2 the primary emotion is
    happiness, the confidence is 0.89 and the score is 8.56. *)
Theorem score_is_blend_of_base_and_midpoint :
  (forall p, well_formed p = true ->
     score p = inr (base_score (emotion p) * confidence p
                    + 5.0 * (1 - confidence p))) /\
  (forall v, v <> [] ->
     emotion (predict v) = inverse_transform (argmax v) /\
     confidence (predict v) = nth (argmax v) v 0 /\
     Forall (fun x => x <= confidence (predict v)) v /\
     forall j, (j < argmax v)%nat -> nth j v 0 < confidence (predict v)) /\
  (forall v,
     List.length v = 7%nat ->
     Forall (fun x => 0 <= x <= 1) v ->
     Qabs (fold_right Qplus 0 v - 1) <= tolerance ->
     score (predict v)
     = inr (base_score (inverse_transform (argmax v)) * nth (argmax v) v 0
            + 5.0 * (1 - nth (argmax v) v 0))) /\
  (probabilities (predict scenario2) =
     [(anger, 0.02); (disgust, 0.01); (fear, 0.03); (happiness, 0.89);
      (sadness, 0.01); (surprise, 0.03); (neutral, 0.01)] /\
   emotion (predict scenario2) = happiness /\
   confidence (predict scenario2) = 0.89 /\
   exists s, score (predict scenario2) = inr s /\ s == 8.56).
Proof.
  split; [ | split; [ | split]].
  - intros p H. unfold score. now rewrite H.
  - intros v Hv. destruct (argmax_spec v Hv) as [_ [Hmax Hfirst]].
    now repeat split.
  - intros v Hlen Hrange Hsum. unfold score.
    now rewrite predict_well_formed.
  - repeat split. eexists. split; [vm_compute; reflexivity | reflexivity].
Qed.

Lemma score_is_blend_of_base_and_midpoint_witness :
  score (predict scenario2) =
    inr (base_score (emotion (predict scenario2))
         * confidence (predict scenario2)
         + 5.0 * (1 - confidence (predict scenario2))) /\
  confidence (predict scenario2) = nth (argmax scenario2) scenario2 0 /\
  score (predict scenario2)
  = inr (base_score (inverse_transform (argmax scenario2))
         * nth (argmax scenario2) scenario2 0
         + 5.0 * (1 - nth (argmax scenario2) scenario2 0)).
Proof.
  destruct score_is_blend_of_base_and_midpoint
    as [Hformula [Hpredict [Hvector _]]].
  split; [ | split].
  - apply Hformula. vm_compute. reflexivity.
  - apply Hpredict. discriminate.
  - apply Hvector.
    + reflexivity.
    + repeat constructor; vm_compute; discriminate.
    + vm_compute. discriminate.
Defined.

Lemma round_error_16 (q : Q) :
  -16 < q -> q < 16 ->
  - (1 # 1125899906842624) <= Binary64.round q - q <= 1 # 1125899906842624.
Proof.
  intros Hlo Hhi. apply Qabs_Qle_condition.
  apply (Binary64Facts.round_error 4); [lia | ].
  apply Qabs_Qlt_condition. split; assumption.
Qed.

(** The binary64 value of the formula is within [rounding] of its exact
    value: each of the four operations is off by at most [2 ^ -50]. *)
Lemma blend64_error (base c : Q) :
  1 <= base <= 9 -> 0 <= c <= 1 ->
  Qabs (blend64 base c - blend base c) <= rounding.
Proof.
  intros Hb Hc. unfold blend64, blend, Binary64.add, Binary64.mul,
    Binary64.sub, rounding.
  assert (Ha : 0 <= base * c <= 9) by nra.
  set (a := base * c) in *.
  pose proof (round_error_16 a ltac:(lra) ltac:(lra)) as H1.
  set (t1 := Binary64.round a) in *.
  pose proof (round_error_16 (1 - c) ltac:(lra) ltac:(lra)) as H2.
  set (t2 := Binary64.round (1 - c)) in *.
  pose proof (round_error_16 (5.0 * t2) ltac:(lra) ltac:(lra)) as H3.
  set (t3 := Binary64.round (5.0 * t2)) in *.
  pose proof (round_error_16 (t1 + t3) ltac:(lra) ltac:(lra)) as H4.
  apply Qabs_Qle_condition. split; lra.
Qed.

Lemma base_score_range (e : Emotion) : 1 <= base_score e <= 9.
Proof. destruct e; split; discriminate. Qed.

(** The exact formula is monotonic in the confidence. *)
Lemma blend_monotone (base c1 c2 : Q) :
  c1 <= c2 ->
  (5.0 <= base -> blend base c1 <= blend base c2) /\
  (base <= 5.0 -> blend base c2 <= blend base c1).
Proof. intros H. unfold blend. split; intros Hb; nra. Qed.

Lemma blend64_at_zero (e : Emotion) : blend64 (base_score e) 0 == 5.0.
Proof. destruct e; vm_compute; reflexivity. Qed.

Lemma well_formed64_spec (p : PredictionResult) :
  well_formed64 p = true <->
  Qabs (Binary64.sub (total64 (probabilities p)) 1)
  <= Binary64.round tolerance /\
  0 <= confidence p <= 1.
Proof.
  unfold well_formed64. rewrite !andb_true_iff, !Qle_bool_iff. tauto.
Qed.

(** Scenario 2 on binary64 numbers: the score is the binary64 number
    nearest to 8.56. *)
Lemma score64_scenario2 :
  exists s,
    score64 (predict (scenario2_with 0.89)) = inr s /\
    s == Binary64.round 8.56.
Proof. eexists. split; vm_compute; reflexivity. Qed.

(** C2 as stated fails in binary64 arithmetic.  The two predictions have
    happiness as primary emotion, whose base score 9.0 is above 5.0, and
    the probabilities of scenario 2 with that of happiness, the
    confidence, at two adjacent binary64 numbers: [c_lo] =
    0.8900000000000003 and [c_hi] = 0.8900000000000005.  Both are well
    formed, and [c_lo < c_hi]; yet the score falls from 8.560000000000002
    to 8.56. *)
Lemma score64_falls_between_adjacent_confidences :
  5.0 <= base_score happiness /\
  0 <= c_lo /\ c_lo < c_hi /\ c_hi <= 1 /\
  Binary64.round c_lo = c_lo /\ Binary64.round c_hi = c_hi /\
  exists s_lo s_hi,
    score64 (mkPrediction happiness c_lo
                          (combine emotions (scenario2_with c_lo)))
    = inr s_lo /\
    score64 (mkPrediction happiness c_hi
                          (combine emotions (scenario2_with c_hi)))
    = inr s_hi /\
    s_lo == 150589112540201 # 17592186044416 /\
    s_hi == 4818851601286431 # 562949953421312 /\
    s_hi < s_lo.
Proof.
  split; [discriminate | ].
  split; [discriminate | ].
  split; [reflexivity | ].
  split; [discriminate | ].
  split; [vm_compute; reflexivity | ].
  split; [vm_compute; reflexivity | ].
  do 2 eexists.
  split; [vm_compute; reflexivity | ].
  split; [vm_compute; reflexivity | ].
  split; [reflexivity | ].
  split; reflexivity.
Qed.

(** C2, amended.  For a fixed primary emotion and fixed probabilities,
    the binary64 score is monotonic in the confidence on [0, 1] up to
    rounding: it lies within [2 ^ -47] of the exact value of the formula,
    which is nondecreasing in the confidence when the base score is at
    least 5.0 and nonincreasing when it is at most 5.0; so between
    confidences [c1 <= c2] the binary64 score moves the wrong way by at
    most [2 ^ -46].  At confidence 0 the binary64 score is exactly 5.0
    for every emotion. *)
Theorem score64_monotone_up_to_rounding
  (e : Emotion) (probs : list (Emotion * Q)) (c1 c2 : Q) :
  well_formed64 (mkPrediction e c1 probs) = true ->
  well_formed64 (mkPrediction e c2 probs) = true ->
  c1 <= c2 ->
  exists s0 s1 s2,
    score64 (mkPrediction e 0 probs) = inr s0 /\
    score64 (mkPrediction e c1 probs) = inr s1 /\
    score64 (mkPrediction e c2 probs) = inr s2 /\
    s0 == 5.0 /\
    Qabs (s1 - blend (base_score e) c1) <= rounding /\
    Qabs (s2 - blend (base_score e) c2) <= rounding /\
    (5.0 <= base_score e ->
     blend (base_score e) c1 <= blend (base_score e) c2 /\
     s1 <= s2 + 2 * rounding) /\
    (base_score e <= 5.0 ->
     blend (base_score e) c2 <= blend (base_score e) c1 /\
     s2 <= s1 + 2 * rounding).
Proof.
  intros W1 W2 H12.
  pose proof W1 as W1'. pose proof W2 as W2'.
  apply well_formed64_spec in W1', W2'.
  cbn [probabilities confidence] in W1', W2'.
  destruct W1' as [Hsum Hc1]. destruct W2' as [_ Hc2].
  assert (W0 : well_formed64 (mkPrediction e 0 probs) = true).
  { apply well_formed64_spec. cbn [probabilities confidence].
    split; [exact Hsum | split; discriminate]. }
  unfold score64. rewrite W0, W1, W2. cbn [emotion confidence].
  pose proof (base_score_range e) as Hb.
  pose proof (blend64_error (base_score e) c1 Hb Hc1) as E1.
  pose proof (blend64_error (base_score e) c2 Hb Hc2) as E2.
  destruct (blend_monotone (base_score e) c1 c2 H12) as [Hup Hdown].
  do 3 eexists. split; [reflexivity | ]. split; [reflexivity | ].
  split; [reflexivity | ]. split; [apply blend64_at_zero | ].
  split; [exact E1 | ]. split; [exact E2 | ].
  apply Qabs_Qle_condition in E1, E2. unfold rounding in *.
  split; intros Hx; (split; [auto | ]).
  - specialize (Hup Hx). lra.
  - specialize (Hdown Hx). lra.
Qed.

Lemma score64_monotone_up_to_rounding_witness :
  exists s0 s1 s2,
    score64 (mkPrediction sadness 0 (combine emotions (scenario2_with 0.89)))
    = inr s0 /\
    score64 (mkPrediction sadness 0.25
                          (combine emotions (scenario2_with 0.89)))
    = inr s1 /\
    score64 (mkPrediction sadness 0.75
                          (combine emotions (scenario2_with 0.89)))
    = inr s2 /\
    s0 == 5.0 /\
    s2 <= s1 + 2 * rounding.
Proof.
  destruct (score64_monotone_up_to_rounding sadness
              (combine emotions (scenario2_with 0.89)) 0.25 0.75)
    as [s0 [s1 [s2 [E0 [E1 [E2 [H0 [_ [_ [_ Hdown]]]]]]]]]].
  - vm_compute. reflexivity.
  - vm_compute. reflexivity.
  - vm_compute. discriminate.
  - exists s0, s1, s2. repeat split; try assumption.
    apply Hdown. vm_compute. discriminate.
Defined.

End ScorerFacts.

Module NormalizerFacts.
Import Normalizer.
Local Open Scope Q_scope.

Lemma Qmax_ub_l (x y : Q) : x <= Qmax x y.
Proof. unfold Qmax. destruct (Qlt_le_dec x y); lra. Qed.

Lemma Qmax_ub_r (x y : Q) : y <= Qmax x y.
Proof. unfold Qmax. destruct (Qlt_le_dec x y); lra. Qed.

Lemma fold_Qmax_ub (r : list Q) (x : Q) :
  x <= fold_left Qmax r x /\ Forall (fun y => y <= fold_left Qmax r x) r.
Proof.
  revert x. induction r as [ | y r IH]; intros x; cbn [fold_left].
  - split; [lra | constructor].
  - destruct (IH (Qmax x y)) as [H1 H2].
    pose proof (Qmax_ub_l x y). pose proof (Qmax_ub_r x y).
    split; [lra | constructor; [lra | exact H2]].
Qed.

(** When every entry is zero, so is the maximum. *)
Lemma fold_Qmax_zero (r : list Q) (x : Q) :
  x == 0 -> Forall (fun y => y == 0) r -> fold_left Qmax r x == 0.
Proof.
  revert x. induction r as [ | y r IH]; intros x Hx Hr; cbn [fold_left].
  - exact Hx.
  - inversion Hr as [ | ? ? Hy Hr']; subst. apply IH; [ | exact Hr'].
    unfold Qmax. now destruct (Qlt_le_dec x y).
Qed.

Lemma np_max_abs_spec (audio : list Q) :
  audio <> [] ->
  exists peak, np_max (np_abs audio) = Some peak /\ 0 <= peak /\
    Forall (fun x => Qabs x <= peak) audio.
Proof.
  destruct audio as [ | x r]; [congruence | intros _].
  cbn [np_abs map np_max]. eexists. split; [reflexivity | ].
  destruct (fold_Qmax_ub (map Qabs r) (Qabs x)) as [H1 H2].
  pose proof (Qabs_nonneg x). split; [lra | ].
  constructor; [exact H1 | ].
  rewrite Forall_map in H2. exact H2.
Qed.

Lemma epsilon_pos : 0 < epsilon.
Proof. reflexivity. Qed.

Lemma scaled_in_range (x d peak : Q) :
  Qabs x <= peak -> peak < d -> -1 <= x / d <= 1.
Proof.
  intros Hx Hd. pose proof (Qabs_nonneg x) as H0.
  assert (Hpos : 0 < d) by lra.
  apply Qabs_Qle_condition in Hx. destruct Hx as [Hlo Hhi].
  split.
  - apply Qle_shift_div_l; [exact Hpos | lra].
  - apply Qle_shift_div_r; [exact Hpos | lra].
Qed.

Lemma scaled_zero (x d : Q) : x == 0 -> x / d == 0.
Proof. intros ->. unfold Qdiv. ring. Qed.

Lemma max_length_pos : (0 < max_length)%nat.
Proof. unfold max_length, sr, duration. lia. Qed.

Lemma pad_or_trim_spec (audio : list Q) :
  pad_or_trim audio =
    firstn max_length audio ++ repeat 0 (max_length - List.length audio) /\
  List.length (pad_or_trim audio) = max_length.
Proof.
  unfold pad_or_trim, np_pad_tail.
  destruct (Nat.ltb_spec (List.length audio) max_length) as [Hlt | Hge].
  - rewrite firstn_all2 by lia. split; [reflexivity | ].
    rewrite length_app, repeat_length. lia.
  - replace (max_length - List.length audio)%nat with O by lia.
    cbn [repeat]. rewrite app_nil_r. split; [reflexivity | ].
    rewrite length_firstn. lia.
Qed.

Lemma Forall_firstn {A : Type} (P : A -> Prop) (n : nat) (l : list A) :
  Forall P l -> Forall P (firstn n l).
Proof.
  revert n. induction l as [ | x l IH]; intros [ | n] H; cbn [firstn];
    try constructor; inversion H; subst; auto.
Qed.

Lemma Forall_pad_or_trim (P : Q -> Prop) (audio : list Q) :
  P 0 -> Forall P audio -> Forall P (pad_or_trim audio).
Proof.
  intros H0 H. destruct (pad_or_trim_spec audio) as [-> _].
  apply Forall_app. split.
  - now apply Forall_firstn.
  - rewrite Forall_forall. intros x Hx. apply repeat_spec in Hx. now subst.
Qed.

(** What [normalize] returns on a file that decodes to at least one
    sample. *)
Lemma normalize_decoded {Audio : Type} (decode : Audio -> option (list Q))
  (file_path : Audio) (samples : list Q) :
  decode file_path = Some samples -> samples <> [] ->
  exists peak,
    np_max (np_abs (firstn max_length samples)) = Some peak /\
    0 <= peak /\
    Forall (fun x => Qabs x <= peak) (firstn max_length samples) /\
    normalize decode file_path =
      inr (pad_or_trim (map (fun x => x / (peak + epsilon))
                            (firstn max_length samples))).
Proof.
  intros Hdec Hne.
  assert (Hhead : firstn max_length samples <> []).
  { destruct samples as [ | x r]; [congruence | ].
    pose proof max_length_pos as Hpos.
    destruct max_length; [lia | cbn [firstn]; discriminate]. }
  destruct (np_max_abs_spec _ Hhead) as [peak [Hpeak [H0 Hall]]].
  exists peak. repeat split; try assumption.
  unfold normalize, load, scale. rewrite Hdec.
  change (N.to_nat (sr * duration)) with max_length. now rewrite Hpeak.
Qed.

(** The divisor is positive whatever the input. *)
Lemma divisor_pos (audio : list Q) (peak : Q) :
  np_max (np_abs audio) = Some peak -> 0 < peak + epsilon.
Proof.
  intros Hpeak. destruct audio as [ | x r]; [discriminate | ].
  destruct (np_max_abs_spec (x :: r)) as [peak' [E [H0 _]]];
    [discriminate | ].
  rewrite Hpeak in E. injection E as <-.
  pose proof epsilon_pos. lra.
Qed.

Lemma np_divide_number (x d : Q) : 0 < d -> np_divide x d = Number (x / d).
Proof.
  intros Hd. unfold np_divide.
  destruct (Qeq_bool d 0) eqn:E; [ | reflexivity].
  apply Qeq_bool_eq in E. lra.
Qed.

Lemma scale_np_numbers (audio : list Q) :
  scale_np audio = as_numbers (scale audio).
Proof.
  unfold scale_np, scale.
  destruct (np_max (np_abs audio)) as [peak | ] eqn:Hpeak; [ | reflexivity].
  cbn [as_numbers]. rewrite map_map. f_equal. apply map_ext. intros x.
  apply np_divide_number. now apply divisor_pos with audio.
Qed.

Lemma pad_or_trim_np_numbers (audio : list Q) :
  pad_or_trim_np (map Number audio) = map Number (pad_or_trim audio).
Proof.
  unfold pad_or_trim_np, pad_or_trim, np_pad_tail. rewrite length_map.
  destruct (List.length audio <? max_length)%nat.
  - now rewrite map_app, map_repeat.
  - now rewrite firstn_map.
Qed.

Lemma normalize_np_numbers {Audio : Type} (decode : Audio -> option (list Q))
  (file_path : Audio) :
  normalize_np decode file_path = as_numbers (normalize decode file_path).
Proof.
  unfold normalize_np, normalize.
  destruct (load decode file_path) as [e | audio]; [reflexivity | ].
  rewrite scale_np_numbers.
  destruct (scale audio) as [e | scaled]; [reflexivity | ].
  cbn [as_numbers]. now rewrite pad_or_trim_np_numbers.
Qed.

(** C4.  The divisor [max(|samples|) + epsilon] is positive whatever the
    input, so it is never zero, and numpy's division returns on every
    clip the numbers of the exact quotients: neither [nan] nor an
    infinity appears.  On a clip that decodes to at least one sample, all
    of them zero, the peak is zero, the divisor is [epsilon], and
    [normalize] returns a clip of the target length whose samples are all
    the number zero. *)
Theorem silence_stays_silent {Audio : Type}
  (decode : Audio -> option (list Q)) (file_path : Audio)
  (samples : list Q) :
  decode file_path = Some samples -> samples <> [] ->
  Forall (fun x => x == 0) samples ->
  (forall audio peak,
     np_max (np_abs audio) = Some peak -> 0 < peak + epsilon) /\
  (forall clip,
     normalize_np decode clip = as_numbers (normalize decode clip)) /\
  (exists peak,
     np_max (np_abs (firstn max_length samples)) = Some peak /\
     peak + epsilon == epsilon) /\
  exists out,
    normalize decode file_path = inr out /\
    normalize_np decode file_path = inr (map Number out) /\
    List.length out = max_length /\
    Forall (fun x => x == 0) out.
Proof.
  intros Hdec Hne Hzero.
  split; [exact divisor_pos | ].
  split; [intros clip; apply normalize_np_numbers | ].
  destruct (normalize_decoded decode file_path samples Hdec Hne)
    as [peak [Hpeak [H0 [Hall Hout]]]].
  assert (Hhead : Forall (fun x => x == 0) (firstn max_length samples))
    by now apply Forall_firstn.
  split.
  - exists peak. split; [exact Hpeak | ].
    assert (Hp : peak == 0).
    { destruct (firstn max_length samples) as [ | x r]; [discriminate | ].
      cbn [np_abs map np_max] in Hpeak. injection Hpeak as <-.
      inversion Hhead as [ | ? ? Hx Hr]; subst.
      apply fold_Qmax_zero.
      - rewrite Hx. reflexivity.
      - rewrite Forall_map. revert Hr. apply Forall_impl.
        intros y Hy. rewrite Hy. reflexivity. }
    rewrite Hp. ring.
  - eexists. split; [exact Hout | ]. split; [ | split].
    + rewrite normalize_np_numbers, Hout. reflexivity.
    + apply pad_or_trim_spec.
    + apply Forall_pad_or_trim; [reflexivity | ].
      rewrite Forall_map. revert Hhead. apply Forall_impl.
      intros x Hx. now apply scaled_zero.
Qed.

Lemma silence_stays_silent_witness :
  (forall clip,
     normalize_np (fun _ : unit => Some [0; 0; 0]) clip
     = as_numbers (normalize (fun _ : unit => Some [0; 0; 0]) clip)) /\
  exists out,
    normalize (fun _ : unit => Some [0; 0; 0]) tt = inr out /\
    normalize_np (fun _ : unit => Some [0; 0; 0]) tt = inr (map Number out) /\
    List.length out = max_length /\
    Forall (fun x => x == 0) out.
Proof.
  destruct (silence_stays_silent (fun _ : unit => Some [0; 0; 0]) tt
              [0; 0; 0]) as [_ [Hnum [_ Hout]]].
  - reflexivity.
  - discriminate.
  - repeat constructor.
  - split; [exact Hnum | exact Hout].
Defined.

(** C5.  On every clip that decodes to at least one sample, [normalize]
    returns exactly [max_length] = 3 * 22050 samples, each within [-1, 1]:
    the first [max_length] input samples divided by one positive number,
    followed by as many zeros as the input falls short of [max_length].
    So a shorter input is padded with zeros at its tail and a longer one
    loses its end. *)
Theorem normalize_fixed_length_in_range {Audio : Type}
  (decode : Audio -> option (list Q)) (file_path : Audio)
  (samples : list Q) :
  decode file_path = Some samples -> samples <> [] ->
  exists out d,
    normalize decode file_path = inr out /\
    List.length out = max_length /\
    N.of_nat max_length = (3 * 22050)%N /\
    Forall (fun x => -1 <= x <= 1) out /\
    0 < d /\
    out = map (fun x => x / d) (firstn max_length samples)
          ++ repeat 0 (max_length - List.length samples).
Proof.
  intros Hdec Hne.
  destruct (normalize_decoded decode file_path samples Hdec Hne)
    as [peak [Hpeak [H0 [Hall Hout]]]].
  pose proof epsilon_pos as Heps.
  eexists. exists (peak + epsilon). split; [exact Hout | ].
  split; [apply pad_or_trim_spec | ].
  split; [unfold max_length, sr, duration; lia | ].
  split; [ | split; [lra | ]].
  - apply Forall_pad_or_trim; [split; discriminate | ].
    rewrite Forall_map. revert Hall. apply Forall_impl.
    intros x Hx. apply scaled_in_range with peak; [exact Hx | lra].
  - destruct (pad_or_trim_spec
                (map (fun x => x / (peak + epsilon))
                     (firstn max_length samples))) as [-> _].
    rewrite length_map, length_firstn.
    rewrite firstn_all2 by (rewrite length_map, length_firstn; lia).
    do 2 f_equal. lia.
Qed.

Lemma normalize_fixed_length_in_range_witness :
  exists out d,
    normalize (fun _ : unit => Some [0.5; -0.25]) tt = inr out /\
    List.length out = max_length /\
    N.of_nat max_length = (3 * 22050)%N /\
    Forall (fun x => -1 <= x <= 1) out /\
    0 < d /\
    out = map (fun x => x / d) (firstn max_length [0.5; -0.25])
          ++ repeat 0 (max_length - List.length [0.5; -0.25]).
Proof.
  apply (normalize_fixed_length_in_range
           (fun _ : unit => Some [0.5; -0.25]) tt [0.5; -0.25]).
  - reflexivity.
  - discriminate.
Defined.

End NormalizerFacts.

Module TensorFacts.
Import Tensor.
Local Open Scope R_scope.

Lemma sum_scaled (f : R -> R) (t : R) (z : list R) :
  sum (map (fun x => f x / t) z) = sum (map f z) / t.
Proof.
  induction z as [ | x z IH]; cbn [map sum fold_right].
  - unfold Rdiv. ring.
  - fold (sum (map (fun x => f x / t) z)). fold (sum (map f z)).
    rewrite IH. unfold Rdiv. ring.
Qed.

Lemma sum_pos_bounds (f : R -> R) (z : list R) :
  (forall x, 0 < f x) ->
  0 <= sum (map f z) /\ Forall (fun x => f x <= sum (map f z)) z.
Proof.
  intros Hf. induction z as [ | x z [IH1 IH2]]; cbn [map sum fold_right].
  - split; [lra | constructor].
  - fold (sum (map f z)). pose proof (Hf x). split; [lra | ].
    constructor; [lra | ].
    revert IH2. apply Forall_impl. intros y Hy. lra.
Qed.

Lemma column_length (j : nat) (M : Matrix) :
  List.length (column j M) = List.length M.
Proof. unfold column. apply length_map. Qed.

Lemma transpose_shape (rows cols : nat) (M : Matrix) :
  M <> [] -> has_shape rows cols M -> has_shape cols rows (transpose M).
Proof.
  intros Hne [Hr Hc]. destruct M as [ | r M']; [congruence | ].
  unfold transpose. split.
  - rewrite length_map, length_seq. now inversion Hc.
  - rewrite Forall_map, Forall_forall. intros j _.
    now rewrite column_length.
Qed.

Lemma transpose_row (rows cols : nat) (M : Matrix) (j : nat) :
  has_shape rows cols M -> (j < cols)%nat -> M <> [] ->
  nth j (transpose M) [] = column j M.
Proof.
  intros [Hr Hc] Hj Hne. destruct M as [ | r M']; [congruence | ].
  unfold transpose.
  assert (Hlen : List.length r = cols) by now inversion Hc.
  rewrite Hlen.
  rewrite nth_indep with (d' := column cols (r :: M'))
    by (rewrite length_map, length_seq; exact Hj).
  change (column cols (r :: M'))
    with ((fun j => column j (r :: M')) cols).
  rewrite map_nth, nth_indep with (d' := O) by (rewrite length_seq; exact Hj).
  now rewrite seq_nth.
Qed.

Lemma concatenate_shape (r1 r2 cols : nat) (A B : Matrix) :
  has_shape r1 cols A -> has_shape r2 cols B ->
  has_shape (r1 + r2) cols (concatenate A B).
Proof.
  intros [Ha1 Ha2] [Hb1 Hb2]. unfold concatenate. split.
  - rewrite length_app. lia.
  - apply Forall_app. now split.
Qed.

Lemma column_concatenate (j : nat) (A B : Matrix) :
  column j (concatenate A B) = column j A ++ column j B.
Proof. unfold column, concatenate. apply map_app. Qed.

End TensorFacts.

Module ClassifierFacts.
Import Tensor TensorFacts Classifier.
Local Open Scope R_scope.

Lemma softmax_distribution (z : list R) :
  z <> [] ->
  List.length (softmax z) = List.length z /\
  Forall (fun p => 0 < p <= 1) (softmax z) /\
  sum (softmax z) = 1.
Proof.
  intros Hne. unfold softmax.
  destruct (sum_pos_bounds exp z exp_pos) as [H0 Hle].
  assert (Hpos : 0 < sum (map exp z)).
  { destruct z as [ | x z']; [congruence | ].
    cbn [map sum fold_right]. fold (sum (map exp z')).
    destruct (sum_pos_bounds exp z' exp_pos) as [H0' _].
    pose proof (exp_pos x). lra. }
  split; [apply length_map | split].
  - rewrite Forall_map. revert Hle. apply Forall_impl.
    intros x Hx. split.
    + apply Rdiv_lt_0_compat; [apply exp_pos | exact Hpos].
    + apply Rmult_le_reg_r with (sum (map exp z)); [exact Hpos | ].
      unfold Rdiv. rewrite Rmult_assoc, Rinv_l by lra. lra.
  - rewrite sum_scaled. unfold Rdiv. apply Rinv_r. lra.
Qed.

Lemma Dense_softmax_distribution (units : nat) (w : DenseWeights)
  (x : list R) :
  (0 < units)%nat ->
  List.length (Dense units softmax w x) = units /\
  Forall (fun p => 0 < p <= 1) (Dense units softmax w x) /\
  sum (Dense units softmax w x) = 1.
Proof.
  intros Hu. unfold Dense.
  set (z := map _ (seq 0 units)).
  assert (Hlen : List.length z = units)
    by (unfold z; now rewrite length_map, length_seq).
  assert (Hne : z <> []) by (intros E; rewrite E in Hlen; simpl in Hlen; lia).
  destruct (softmax_distribution z Hne) as [H1 [H2 H3]].
  rewrite H1, Hlen. now repeat split.
Qed.

(** C3.  With weights loaded, [infer] returns a vector of exactly seven
    entries, each in [0, 1], whose sum is 1 (in exact real arithmetic) and
    so within 1e-3 of 1; without weights it fails with
    [ModelNotLoadedError] and returns no vector. *)
Theorem infer_returns_distribution (ClassifierWeights : Type)
  (stack : ClassifierWeights -> Matrix -> list R)
  (head_weights : ClassifierWeights -> HeadWeights)
  (features : Matrix) (weights : option ClassifierWeights) :
  match infer stack head_weights features weights with
  | inr p =>
      weights <> None /\
      List.length p = 7%nat /\
      Forall (fun x => 0 <= x <= 1) p /\
      sum p = 1 /\
      Rabs (sum p - 1) <= 1 / 1000
  | inl e => weights = None /\ e = ModelNotLoadedError
  end.
Proof.
  destruct weights as [w | ]; cbn [infer]; [ | now split].
  unfold head, Dropout.
  match goal with
  | |- context [Dense 7 softmax ?dw ?x] =>
      destruct (Dense_softmax_distribution 7 dw x) as [H1 [H2 H3]];
        [lia | ]
  end.
  split; [discriminate | ]. split; [exact H1 | ]. split; [ | split].
  - revert H2. apply Forall_impl. intros p Hp. lra.
  - exact H3.
  - rewrite H3. replace (1 - 1) with 0 by ring. rewrite Rabs_R0. lra.
Qed.

End ClassifierFacts.

Module FeaturesFacts.
Import Tensor TensorFacts Features.
Local Open Scope R_scope.

Section WithLibrosa.

Variable mfcc : nat -> list Q -> Matrix.
Variable melspectrogram_db : nat -> list Q -> Matrix.
Variable time_steps : list Q -> nat.
Variable min_window : nat.
Variable guard : R.

Hypothesis mfcc_shape : extractor_shape mfcc time_steps.
Hypothesis mel_shape : extractor_shape melspectrogram_db time_steps.

Lemma stacked_shape (audio : list Q) :
  has_shape (n_mfcc + n_mels) (time_steps audio)
    (concatenate (extract_mfcc mfcc audio)
                 (extract_mel_spectrogram melspectrogram_db audio)).
Proof.
  apply concatenate_shape; [apply mfcc_shape | apply mel_shape].
Qed.

Lemma stacked_nonempty (audio : list Q) :
  concatenate (extract_mfcc mfcc audio)
              (extract_mel_spectrogram melspectrogram_db audio) <> [].
Proof.
  destruct (stacked_shape audio) as [H _]. intros E. rewrite E in H.
  discriminate H.
Qed.

Lemma combined_shape (audio : list Q) :
  has_shape (time_steps audio) (n_mfcc + n_mels)
    (combined mfcc melspectrogram_db audio).
Proof.
  unfold combined. apply transpose_shape;
    [apply stacked_nonempty | apply stacked_shape].
Qed.

Lemma combined_row (audio : list Q) (t : nat) :
  (t < time_steps audio)%nat ->
  nth t (combined mfcc melspectrogram_db audio) [] =
    column t (extract_mfcc mfcc audio)
    ++ column t (extract_mel_spectrogram melspectrogram_db audio).
Proof.
  intros Ht. unfold combined. cbn zeta.
  rewrite transpose_row with (rows := (n_mfcc + n_mels)%nat)
                             (cols := time_steps audio);
    [apply column_concatenate | apply stacked_shape | exact Ht
     | apply stacked_nonempty].
Qed.

Lemma standardize_shape (rows cols : nat) (F : Matrix) :
  has_shape rows cols F -> has_shape rows cols (standardize guard F).
Proof.
  intros [Hr Hc]. unfold standardize. split.
  - now rewrite length_map.
  - destruct F as [ | r F']; [constructor | ].
    destruct (transpose_shape rows cols (r :: F')) as [Ht _];
      [discriminate | now split | ].
    rewrite Forall_map. revert Hc. apply Forall_impl. intros row Hrow.
    rewrite length_map, !length_combine, !length_map, Ht, Hrow. lia.
Qed.

Lemma extract_shape (clip : list Q) :
  (min_window <= List.length clip)%nat ->
  extract mfcc melspectrogram_db min_window guard clip =
    inr (standardize guard (combined mfcc melspectrogram_db clip)) /\
  has_shape (time_steps clip) (n_mfcc + n_mels)
    (standardize guard (combined mfcc melspectrogram_db clip)).
Proof.
  intros Hlen. unfold extract.
  destruct (Nat.ltb_spec (List.length clip) min_window) as [H | H]; [lia | ].
  split; [reflexivity | apply standardize_shape, combined_shape].
Qed.

End WithLibrosa.

(** C6.  Given extractors that return one row per requested coefficient or
    band and one column per time step, [extract] succeeds on every clip of
    at least the minimum window and returns one row per time step, each of
    exactly 168 = 40 + 128 entries; before standardization each row is the
    40 cepstral coefficients of its time step followed by its 128 mel-band
    energies.  In particular this holds for the clip that [normalize]
    returns, whatever the length of the decoded input. *)
Theorem extract_feature_dim_168
  (mfcc melspectrogram_db : nat -> list Q -> Matrix)
  (time_steps : list Q -> nat) (min_window : nat) (guard : R) :
  extractor_shape mfcc time_steps ->
  extractor_shape melspectrogram_db time_steps ->
  (forall clip, (min_window <= List.length clip)%nat ->
     exists F,
       extract mfcc melspectrogram_db min_window guard clip = inr F /\
       has_shape (time_steps clip) 168 F /\
       F = standardize guard (combined mfcc melspectrogram_db clip) /\
       forall t, (t < time_steps clip)%nat ->
         nth t (combined mfcc melspectrogram_db clip) [] =
           column t (extract_mfcc mfcc clip)
           ++ column t (extract_mel_spectrogram melspectrogram_db clip) /\
         List.length (column t (extract_mfcc mfcc clip)) = 40%nat /\
         List.length
           (column t (extract_mel_spectrogram melspectrogram_db clip))
           = 128%nat) /\
  (forall (Audio : Type) (decode : Audio -> option (list Q))
          (file_path : Audio) (samples : list Q),
     decode file_path = Some samples -> samples <> [] ->
     (min_window <= Normalizer.max_length)%nat ->
     exists clip F,
       Normalizer.normalize decode file_path = inr clip /\
       extract mfcc melspectrogram_db min_window guard clip = inr F /\
       has_shape (time_steps clip) 168 F).
Proof.
  intros Hmfcc Hmel. split.
  - intros clip Hlen.
    destruct (extract_shape mfcc melspectrogram_db time_steps min_window
                guard Hmfcc Hmel clip Hlen) as [E Hs].
    eexists. split; [exact E | ]. split; [exact Hs | ].
    split; [reflexivity | ]. intros t Ht. split; [ | split].
    + now apply combined_row with (time_steps := time_steps).
    + rewrite column_length. apply (Hmfcc n_mfcc clip).
    + rewrite column_length. apply (Hmel n_mels clip).
  - intros Audio decode file_path samples Hdec Hne Hwin.
    destruct (NormalizerFacts.normalize_decoded decode file_path samples
                Hdec Hne) as [peak [_ [_ [_ Hout]]]].
    eexists. 
    destruct (extract_shape mfcc melspectrogram_db time_steps min_window
                guard Hmfcc Hmel
                (Normalizer.pad_or_trim
                   (map (fun x => (x / (peak + Normalizer.epsilon))%Q)
                        (firstn Normalizer.max_length samples))))
      as [E Hs].
    { destruct (NormalizerFacts.pad_or_trim_spec
                  (map (fun x => (x / (peak + Normalizer.epsilon))%Q)
                       (firstn Normalizer.max_length samples)))
        as [_ Hl].
      rewrite Hl. exact Hwin. }
    eexists. split; [exact Hout | ]. split; [exact E | exact Hs].
Qed.

Lemma flat_shape : extractor_shape flat (@List.length Q).
Proof.
  intros n audio. unfold flat. split.
  - apply repeat_length.
  - rewrite Forall_forall. intros r Hr. apply repeat_spec in Hr. subst.
    apply length_map.
Qed.

Lemma extract_feature_dim_168_witness :
  (exists F,
     extract flat flat 2 1 [0.5%Q; (-0.25)%Q; 0.125%Q] = inr F /\
     has_shape 3 168 F /\
     nth 0 (combined flat flat [0.5%Q; (-0.25)%Q; 0.125%Q]) [] =
       column 0 (extract_mfcc flat [0.5%Q; (-0.25)%Q; 0.125%Q])
       ++ column 0 (extract_mel_spectrogram flat
                      [0.5%Q; (-0.25)%Q; 0.125%Q])) /\
  (exists clip F,
     Normalizer.normalize (fun _ : unit => Some [0.5%Q; (-0.25)%Q]) tt
       = inr clip /\
     extract flat flat 2 1 clip = inr F /\
     has_shape (List.length clip) 168 F).
Proof.
  destruct (extract_feature_dim_168 flat flat (@List.length Q) 2%nat 1
              flat_shape flat_shape) as [Hclip Hpipe].
  split.
  - destruct (Hclip [0.5%Q; (-0.25)%Q; 0.125%Q]) as [F [E [Hs [_ Hrow]]]].
    + simpl. lia.
    + exists F. split; [exact E | ]. split; [exact Hs | ].
      apply (Hrow 0%nat). simpl. lia.
  - apply (Hpipe unit (fun _ => Some [0.5%Q; (-0.25)%Q]) tt
             [0.5%Q; (-0.25)%Q]).
    + reflexivity.
    + discriminate.
    + unfold Normalizer.max_length, Normalizer.sr, Normalizer.duration. lia.
Defined.

End FeaturesFacts.

Module TrainerFacts.
Import Trainer.

Section Counting.

Context {Item : Type}.
Implicit Types l : list (Item * Emotion).

Lemma size_app l1 l2 : size (l1 ++ l2) = (size l1 + size l2)%Z.
Proof. unfold size. rewrite length_app. lia. Qed.

Lemma count_app c l1 l2 : count c (l1 ++ l2) = (count c l1 + count c l2)%Z.
Proof. unfold count, members. rewrite filter_app, length_app. lia. Qed.

Lemma size_perm l1 l2 : Permutation l1 l2 -> size l1 = size l2.
Proof. intros H. unfold size. now rewrite (Permutation_length H). Qed.

Lemma members_perm c l1 l2 :
  Permutation l1 l2 -> Permutation (members c l1) (members c l2).
Proof.
  unfold members. induction 1 as [ | x l1 l2 _ IH | x y l | l1 l2 l3 _ IH1 _ IH2];
    cbn [filter].
  - constructor.
  - destruct (has_label c x); [now constructor | exact IH].
  - destruct (has_label c x), (has_label c y);
      try apply Permutation_refl. apply perm_swap.
  - now transitivity (filter (has_label c) l2).
Qed.

Lemma count_perm c l1 l2 : Permutation l1 l2 -> count c l1 = count c l2.
Proof.
  intros H. unfold count.
  now rewrite (Permutation_length (members_perm c l1 l2 H)).
Qed.

Lemma NoDup_app_disjoint l1 l2 :
  NoDup (l1 ++ l2) -> forall x, In x l1 -> ~ In x l2.
Proof.
  induction l1 as [ | a l1 IH]; cbn [app]; intros H x Hx; [destruct Hx | ].
  inversion H as [ | ? ? Hnotin Hrest]; subst.
  destruct Hx as [<- | Hx].
  - intros Hin. apply Hnotin. apply in_or_app. now right.
  - now apply IH.
Qed.

End Counting.

(** The bounds of [doc_size] over the integers, for a fraction [p/q]. *)
Lemma share_bounds (n t p : Z) (q : positive) :
  (inject_Z n * (p # q) <= inject_Z t)%Q ->
  (inject_Z t < inject_Z n * (p # q) + 1)%Q ->
  (n * p <= t * Z.pos q < n * p + Z.pos q)%Z.
Proof.
  intros H1 H2. unfold Qle, Qlt, Qplus, Qmult, inject_Z in H1, H2.
  simpl in H1, H2. nia.
Qed.

(** Two nested proportional cuts stay within two samples of the overall
    proportion. *)
Lemma nested_share (n t T nc tc Tc : Z) :
  (0 <= T <= t)%Z ->
  (Z.abs (tc * n - t * nc) < n)%Z ->
  (Z.abs (Tc * t - T * tc) < t)%Z ->
  (Z.abs (Tc * n - T * nc) < 2 * n)%Z.
Proof.
  intros HT H1 H2.
  assert (Hn : (0 < n)%Z) by lia.
  assert (Ht : (0 < t)%Z) by lia.
  assert (E : ((Tc * n - T * nc) * t
               = n * (Tc * t - T * tc) + T * (tc * n - t * nc))%Z) by ring.
  apply Z.abs_lt in H1. apply Z.abs_lt in H2. apply Z.abs_lt.
  split; nia.
Qed.

Section WithSplitter.

Variable Item : Type.
Variable Generator : Type.
Variable tts : Splitter Item Generator.
Hypothesis Hdoc : documented tts.

Lemma split_corpus_seeded (corpus : list (Item * Emotion))
  (g1 g2 : Generator) :
  fst (split_corpus tts corpus g1) = fst (split_corpus tts corpus g2).
Proof.
  unfold split_corpus.
  pose proof (doc_seeded tts Hdoc corpus 0.3%Q 42%Z g1 g2) as H1.
  destruct (tts corpus 0.3%Q (Some 42%Z) g1) as [[[train temp] | ] g1'],
           (tts corpus 0.3%Q (Some 42%Z) g2) as [[[train' temp'] | ] g2'];
    cbn [fst] in H1; try discriminate; [ | reflexivity].
  injection H1 as <- <-.
  pose proof (doc_seeded tts Hdoc temp 0.5%Q 42%Z g1' g2') as H2.
  destruct (tts temp 0.5%Q (Some 42%Z) g1') as [[[val test] | ] g1''],
           (tts temp 0.5%Q (Some 42%Z) g2') as [[[val' test'] | ] g2''];
    cbn [fst] in H2; try discriminate; [ | reflexivity].
  now injection H2 as <- <-.
Qed.

(** A successful run is made of two successful calls. *)
Lemma split_corpus_inr (corpus train val test : list (Item * Emotion))
  (g : Generator) :
  fst (split_corpus tts corpus g) = inr (train, val, test) ->
  exists temp g',
    fst (tts corpus 0.3%Q (Some 42%Z) g) = Some (train, temp) /\
    fst (tts temp 0.5%Q (Some 42%Z) g') = Some (val, test).
Proof.
  unfold split_corpus.
  destruct (tts corpus 0.3%Q (Some 42%Z) g) as [[[train0 temp] | ] g'];
    [ | discriminate].
  destruct (tts temp 0.5%Q (Some 42%Z) g') as [[[val0 test0] | ] g''] eqn:E2;
    [ | discriminate].
  cbn [fst]. intros [= <- <- <-]. exists temp, g'. now rewrite E2.
Qed.

End WithSplitter.

(** *** The deterministic splitter behaves as documented *)

Section ExactSplit.

Context {Item : Type}.
Implicit Types (l data : list (Item * Emotion)) (x : Item * Emotion).

Lemma has_label_true c x : has_label c x = true <-> snd x = c.
Proof. unfold has_label. destruct (Emotion_eq_dec (snd x) c); intuition congruence. Qed.

Lemma members_cons c x l :
  members c (x :: l) = if has_label c x then x :: members c l else members c l.
Proof. reflexivity. Qed.

Lemma by_class_cons_other classes x l :
  ~ In (snd x) classes -> by_class classes (x :: l) = by_class classes l.
Proof.
  induction classes as [ | c cl IH]; intros Hnot; [reflexivity | ].
  change (by_class (c :: cl) (x :: l))
    with (members c (x :: l) ++ by_class cl (x :: l)).
  change (by_class (c :: cl) l) with (members c l ++ by_class cl l).
  rewrite members_cons.
  destruct (has_label c x) eqn:E.
  - apply has_label_true in E. exfalso. apply Hnot. now left.
  - rewrite IH; [reflexivity | ]. intros Hin. apply Hnot. now right.
Qed.

Lemma by_class_cons classes x l :
  NoDup classes -> In (snd x) classes ->
  Permutation (by_class classes (x :: l)) (x :: by_class classes l).
Proof.
  induction classes as [ | c cl IH]; intros Hnd Hin; [destruct Hin | ].
  inversion Hnd as [ | ? ? Hc Hcl]; subst.
  change (by_class (c :: cl) (x :: l))
    with (members c (x :: l) ++ by_class cl (x :: l)).
  change (by_class (c :: cl) l) with (members c l ++ by_class cl l).
  rewrite members_cons. destruct (has_label c x) eqn:E.
  - apply has_label_true in E. subst c.
    rewrite by_class_cons_other by exact Hc. apply Permutation_refl.
  - destruct Hin as [Hin | Hin].
    + assert (has_label c x = true) by (apply has_label_true; congruence).
      congruence.
    + transitivity (members c l ++ x :: by_class cl l).
      * apply Permutation_app_head. now apply IH.
      * symmetry. apply Permutation_middle.
Qed.

Lemma emotions_complete (e : Emotion) : In e emotions.
Proof. destruct e; cbn; tauto. Qed.

Lemma emotions_NoDup : NoDup emotions.
Proof.
  unfold emotions.
  repeat (constructor; [cbn; intuition discriminate | ]). constructor.
Qed.

Lemma by_class_emotions data : Permutation (by_class emotions data) data.
Proof.
  induction data as [ | x l IH]; [apply Permutation_refl | ].
  transitivity (x :: by_class emotions l).
  - apply by_class_cons; [apply emotions_NoDup | apply emotions_complete].
  - now constructor.
Qed.

Lemma members_members c c' l :
  members c (members c' l) = if Emotion_eq_dec c' c then members c' l else [].
Proof.
  unfold members. induction l as [ | x l IH].
  - now destruct (Emotion_eq_dec c' c).
  - cbn [filter]. destruct (has_label c' x) eqn:E'.
    + cbn [filter]. rewrite IH. apply has_label_true in E'.
      unfold has_label. rewrite E'.
      now destruct (Emotion_eq_dec c' c).
    + exact IH.
Qed.

(** A prefix of a class holds samples of that class only. *)
Lemma members_firstn_same c k l :
  members c l = l -> members c (firstn k l) = firstn k l.
Proof.
  revert k. induction l as [ | x l IH]; intros k Hm.
  - now rewrite firstn_nil.
  - destruct k as [ | k]; [reflexivity | ].
    cbn [firstn]. rewrite members_cons in Hm |- *.
    destruct (has_label c x).
    + injection Hm as Hm. now rewrite IH.
    + exfalso. pose proof (f_equal (@List.length _) Hm) as Hl.
      cbn [List.length] in Hl.
      pose proof (filter_length_le (has_label c) l) as Hle.
      unfold members in Hl. lia.
Qed.

Lemma members_firstn_none c k l :
  members c l = [] -> members c (firstn k l) = [].
Proof.
  revert k. induction l as [ | x l IH]; intros k Hm.
  - now rewrite firstn_nil.
  - destruct k as [ | k]; [reflexivity | ].
    cbn [firstn]. rewrite members_cons in Hm |- *.
    destruct (has_label c x); [discriminate | now apply IH].
Qed.

Lemma count_firstn_members c c' k l :
  (k <= List.length (members c' l))%nat ->
  count c (firstn k (members c' l))
  = if Emotion_eq_dec c' c then Z.of_nat k else 0%Z.
Proof.
  intros Hk. unfold count. pose proof (members_members c c' l) as Hm.
  destruct (Emotion_eq_dec c' c).
  - rewrite members_firstn_same by exact Hm. rewrite length_firstn. lia.
  - now rewrite members_firstn_none.
Qed.

Lemma share_spec (r : Q) (k j : nat) :
  share r k = Some j ->
  (0 <= Qnum r <= Z.pos (Qden r))%Z /\
  (Z.of_nat j * Z.pos (Qden r) = Qnum r * Z.of_nat k)%Z /\
  (j <= k)%nat.
Proof.
  unfold share.
  destruct (Z.leb_spec 0 (Qnum r)) as [H0 | ]; [ | discriminate].
  destruct (Z.leb_spec (Qnum r) (Z.pos (Qden r))) as [H1 | ]; [ | discriminate].
  destruct (Z.eqb_spec ((Qnum r * Z.of_nat k) mod Z.pos (Qden r)) 0)
    as [Hmod | ]; [ | discriminate].
  cbn [andb]. intros [= <-].
  apply Z.mod_divide in Hmod; [ | lia]. destruct Hmod as [d Hd].
  rewrite Hd, Z.div_mul by lia.
  assert (0 <= d)%Z by nia.
  rewrite Z2Nat.id by assumption.
  split; [lia | split; [reflexivity | ]].
  apply Nat2Z.inj_le. rewrite Z2Nat.id by assumption. nia.
Qed.

Lemma split_classes_spec (r : Q) (classes : list Emotion) data train test :
  split_classes r classes data = Some (train, test) ->
  Permutation (train ++ test) (by_class classes data) /\
  (size test * Z.pos (Qden r) = Qnum r * size (by_class classes data))%Z /\
  forall c,
    (count c test * Z.pos (Qden r)
     = Qnum r * count c (by_class classes data))%Z.
Proof.
  revert train test. induction classes as [ | c1 cl IH]; intros train test.
  - cbn [split_classes]. intros [= <- <-]. split; [constructor | ].
    split; [cbn; lia | intros c; cbn; lia].
  - cbn [split_classes].
    destruct (share r (List.length (members c1 data))) as [k | ] eqn:Hk;
      [ | discriminate].
    destruct (split_classes r cl data) as [[train' test'] | ];
      [ | discriminate].
    intros [= <- <-].
    destruct (IH train' test' eq_refl) as [P [S C]].
    destruct (share_spec _ _ _ Hk) as [Hr [Hkq Hle]].
    change (by_class (c1 :: cl) data)
      with (members c1 data ++ by_class cl data).
    split; [ | split].
    + rewrite <- (firstn_skipn k (members c1 data)) at 3.
      transitivity ((firstn k (members c1 data) ++ skipn k (members c1 data))
                    ++ train' ++ test').
      * rewrite <- !app_assoc.
        transitivity (skipn k (members c1 data)
                      ++ firstn k (members c1 data) ++ train' ++ test').
        -- apply Permutation_app_head.
           rewrite !app_assoc. apply Permutation_app_tail.
           apply Permutation_app_comm.
        -- rewrite !app_assoc. do 2 apply Permutation_app_tail.
           apply Permutation_app_comm.
      * now apply Permutation_app_head.
    + unfold size in S |- *.
      rewrite !length_app, length_firstn, Nat.min_l by exact Hle.
      rewrite !Nat2Z.inj_add. lia.
    + intros c. rewrite !count_app, count_firstn_members by exact Hle.
      specialize (C c).
      assert (Hm : count c (members c1 data)
                   = if Emotion_eq_dec c1 c
                     then Z.of_nat (List.length (members c1 data)) else 0%Z).
      { unfold count. rewrite members_members.
        now destruct (Emotion_eq_dec c1 c). }
      rewrite Hm. destruct (Emotion_eq_dec c1 c); lia.
Qed.

Lemma exact_split_documented (Generator : Type) :
  documented (@exact_split Item Generator).
Proof.
  assert (Hspec : forall data r rs (g : Generator) train test,
             fst (exact_split data r rs g) = Some (train, test) ->
             (0 < size data)%Z /\
             Permutation (train ++ test) data /\
             (size test * Z.pos (Qden r) = Qnum r * size data)%Z /\
             forall c,
               (count c test * Z.pos (Qden r) = Qnum r * count c data)%Z).
  { intros data r rs g train test H. unfold exact_split in H.
    destruct data as [ | x l]; [discriminate | ]. cbn [fst] in H.
    destruct (split_classes_spec _ _ _ _ _ H) as [P [S C]].
    pose proof (by_class_emotions (x :: l)) as Hcover.
    split; [unfold size; cbn [List.length]; lia | ].
    split; [now transitivity (by_class emotions (x :: l)) | ].
    split.
    - now rewrite <- (size_perm _ _ Hcover).
    - intros c. rewrite <- (count_perm c _ _ Hcover). apply C. }
  constructor.
  - intros data r seed g1 g2. unfold exact_split.
    now destruct data.
  - intros data r rs g train test H. now apply Hspec in H.
  - intros data r rs g train test H.
    apply Hspec in H. destruct H as [_ [_ [S _]]].
    destruct r as [p q]. cbn [Qnum Qden] in S.
    unfold Qle, Qlt, Qplus, Qmult, inject_Z. simpl. split; nia.
  - intros data r rs g train test H c.
    apply Hspec in H. destruct H as [Hn [_ [S C]]]. specialize (C c).
    assert (E : ((count c test * size data - size test * count c data)
                 * Z.pos (Qden r) = 0)%Z).
    { replace ((count c test * size data - size test * count c data)
               * Z.pos (Qden r))%Z
        with ((count c test * Z.pos (Qden r)) * size data
              - (size test * Z.pos (Qden r)) * count c data)%Z by ring.
      rewrite C, S. ring. }
    apply Z.mul_eq_0_l in E; [ | lia]. rewrite E. exact Hn.
Qed.

End ExactSplit.


(** C7.  Let the library's splitter behave as documented.  Two runs of the
    corpus split on the same corpus, whatever the state of the process-wide
    random generator in each, have the same outcome.  When the outcome is
    three partitions, they are together a rearrangement of the corpus, and
    pairwise disjoint when the corpus has no repeated item; each has its
    70%, 15%, 15% share of the corpus up to one sample (exactly, when the
    corpus size is a multiple of 20); and each class has in each partition
    its proportional share of that partition, up to one sample for
    training and up to two for validation and test. *)
Theorem split_reproducible_stratified_disjoint
  (Item Generator : Type) (tts : Splitter Item Generator)
  (corpus : list (Item * Emotion)) (g1 g2 : Generator) :
  documented tts ->
  fst (split_corpus tts corpus g1) = fst (split_corpus tts corpus g2) /\
  forall train val test,
    fst (split_corpus tts corpus g1) = inr (train, val, test) ->
    let n := size corpus in
    Permutation (train ++ val ++ test) corpus /\
    (NoDup corpus ->
     forall x, (In x train -> ~ In x val /\ ~ In x test) /\
               (In x val -> ~ In x test)) /\
    (7 * n - 9 <= 10 * size train <= 7 * n)%Z /\
    (3 * n - 10 <= 20 * size val <= 3 * n + 9)%Z /\
    (3 * n <= 20 * size test <= 3 * n + 19)%Z /\
    ((n mod 20 = 0)%Z ->
     (10 * size train = 7 * n /\ 20 * size val = 3 * n /\
      20 * size test = 3 * n)%Z) /\
    forall c,
      (Z.abs (count c train * n - size train * count c corpus) < n)%Z /\
      (Z.abs (count c val * n - size val * count c corpus) < 2 * n)%Z /\
      (Z.abs (count c test * n - size test * count c corpus) < 2 * n)%Z.
Proof.
  intros Hdoc. split; [now apply split_corpus_seeded | ].
  intros train val test Hrun n.
  destruct (split_corpus_inr Item Generator tts corpus train val test g1 Hrun)
    as [temp [g' [H1 H2]]].
  pose proof (doc_partition tts Hdoc _ _ _ _ _ _ H1) as P1.
  pose proof (doc_partition tts Hdoc _ _ _ _ _ _ H2) as P2.
  destruct (doc_size tts Hdoc _ _ _ _ _ _ H1) as [S1a S1b].
  destruct (doc_size tts Hdoc _ _ _ _ _ _ H2) as [S2a S2b].
  pose proof (share_bounds _ _ _ _ S1a S1b) as S1.
  pose proof (share_bounds _ _ _ _ S2a S2b) as S2.
  pose proof (doc_stratified tts Hdoc _ _ _ _ _ _ H1) as C1.
  pose proof (doc_stratified tts Hdoc _ _ _ _ _ _ H2) as C2.
  assert (Pall : Permutation (train ++ val ++ test) corpus).
  { transitivity (train ++ temp); [ | exact P1].
    now apply Permutation_app_head. }
  assert (En : (n = size train + size temp)%Z).
  { unfold n. rewrite <- (size_perm _ _ P1). apply size_app. }
  assert (Et : (size temp = size val + size test)%Z).
  { rewrite <- (size_perm _ _ P2). apply size_app. }
  assert (Hval : (0 <= size val)%Z) by (unfold size; lia).
  assert (Htest : (0 <= size test)%Z) by (unfold size; lia).
  fold n in S1, C1.
  split; [exact Pall | ]. split; [ | split; [ | split; [ | split; [ | split]]]].
  - intros Hnd x.
    assert (Hnd' : NoDup (train ++ val ++ test))
      by (eapply Permutation_NoDup; [symmetry; exact Pall | exact Hnd]).
    split.
    + intros Hx.
      pose proof (NoDup_app_disjoint _ _ Hnd' x Hx) as Hnot.
      split; intros Hin; apply Hnot; apply in_or_app; auto.
    + apply NoDup_app_disjoint. now apply NoDup_app_remove_l in Hnd'.
  - lia.
  - lia.
  - lia.
  - intros Hmod. apply Z.mod_divide in Hmod; [ | lia].
    destruct Hmod as [k Hk]. lia.
  - intros c.
    assert (Enc : (count c corpus = count c train + count c temp)%Z)
      by (rewrite <- (count_perm c _ _ P1); apply count_app).
    assert (Etc : (count c temp = count c val + count c test)%Z)
      by (rewrite <- (count_perm c _ _ P2); apply count_app).
    specialize (C1 c). specialize (C2 c).
    split; [ | split].
    + replace (count c train * n - size train * count c corpus)%Z
        with (- (count c temp * n - size temp * count c corpus))%Z
        by (rewrite Enc, En; ring).
      now rewrite Z.abs_opp.
    + apply nested_share with (t := size temp) (tc := count c temp);
        [lia | exact C1 | ].
      replace (count c val * size temp - size val * count c temp)%Z
        with (- (count c test * size temp - size test * count c temp))%Z
        by (rewrite Etc, Et; ring).
      now rewrite Z.abs_opp.
    + apply nested_share with (t := size temp) (tc := count c temp);
        [lia | exact C1 | exact C2].
Qed.


Lemma corpus40_NoDup : NoDup corpus40.
Proof.
  apply NoDup_map_inv with (f := fst).
  change (map fst corpus40) with (seq 0 40). apply seq_NoDup.
Qed.

Lemma split_reproducible_stratified_disjoint_witness :
  fst (split_corpus (@exact_split nat nat) corpus40 0%nat)
  = fst (split_corpus (@exact_split nat nat) corpus40 1%nat) /\
  exists train val test,
    fst (split_corpus (@exact_split nat nat) corpus40 0%nat)
    = inr (train, val, test) /\
    Permutation (train ++ val ++ test) corpus40 /\
    (forall x, (In x train -> ~ In x val /\ ~ In x test) /\
               (In x val -> ~ In x test)) /\
    (10 * size train = 7 * size corpus40)%Z /\
    (20 * size val = 3 * size corpus40)%Z /\
    (20 * size test = 3 * size corpus40)%Z.
Proof.
  destruct (split_reproducible_stratified_disjoint nat nat exact_split
              corpus40 0%nat 1%nat (exact_split_documented nat))
    as [Hsame Hparts].
  split; [exact Hsame | ].
  destruct (fst (split_corpus exact_split corpus40 0%nat))
    as [e | [[train val] test]] eqn:E.
  - vm_compute in E. discriminate.
  - exists train, val, test. split; [reflexivity | ].
    destruct (Hparts train val test eq_refl)
      as [P [D [_ [_ [_ [X _]]]]]].
    split; [exact P | ]. split; [exact (D corpus40_NoDup) | ].
    apply X. reflexivity.
Defined.

End TrainerFacts.

Module SessionFacts.
Import Uploader Drag UploaderFacts.

Lemma messages_differ : msgInvalidType <> msgTooLarge.
Proof. discriminate. Qed.

(** X3.  Which message [handleFile] reports: the type message exactly when
    neither the MIME type nor the name is allowed, whatever the size; the
    size message exactly when the type or name is allowed and the size is
    above the limit; no message exactly when the file is accepted. *)
Theorem handleFile_error_precedence (f : File) (st : State) :
  (error (handleFile f st) = Some msgInvalidType <->
   includes validTypes (type f) = false /\
   matchesExtension (name f) = false) /\
  (error (handleFile f st) = Some msgTooLarge <->
   (includes validTypes (type f) = true \/
    matchesExtension (name f) = true) /\ (size f > maxSize)%Z) /\
  (error (handleFile f st) = None <-> accepted f).
Proof.
  unfold accepted.
  destruct (handleFile_cases f st)
    as [[E [Ht Hn]] | [[E Hgt] | [E [Hle Hok]]]]; rewrite E; cbn [error setError].
  - split; [ | split].
    + tauto.
    + split; [intros [= H]; now destruct messages_differ | ].
      intros [[H | H] _]; congruence.
    + split; [discriminate | intros [[H | H] _]; congruence].
  - assert (Hok : includes validTypes (type f) = true \/
                  matchesExtension (name f) = true).
    { revert E. unfold handleFile.
      destruct (includes validTypes (type f)), (matchesExtension (name f));
        cbn [negb andb]; auto.
      intros E. apply (f_equal error) in E. cbn [error setError] in E.
      injection E as E. now destruct messages_differ. }
    split; [ | split].
    + split; [intros [= H]; now destruct messages_differ; symmetry | ].
      intros [H1 H2]. destruct Hok; congruence.
    + tauto.
    + split; [discriminate | intros [_ H]; lia].
  - split; [ | split].
    + split; [discriminate | intros [H1 H2]; destruct Hok; congruence].
    + split; [discriminate | intros [_ H]; lia].
    + tauto.
Qed.

(** X2.  Clearing after offering a file gives the same state as clearing
    alone, so selecting any file from the initial state and clearing
    returns to the initial state; and after clearing, [handleAnalyze]
    posts nothing and calls nothing. *)
Theorem clearFile_undoes_handleFile
  (R : Type) (post : File -> Reply R) (f : File) (st : State) :
  clearFile (handleFile f st) = clearFile st /\
  clearFile (handleFile f initial) = initial /\
  handleAnalyze post (clearFile st)
  = (clearFile st, mkEffects [] None).
Proof.
  assert (H : forall s, clearFile (handleFile f s) = clearFile s).
  { intros s.
    destruct (handleFile_cases f s) as [[-> _] | [[-> _] | [-> _]]];
      reflexivity. }
  split; [apply H | ]. split; [now rewrite H | reflexivity].
Qed.

Lemma handleDrag_fields (eventType : string) (st : State) :
  file (handleDrag eventType st) = file st /\
  error (handleDrag eventType st) = error st /\
  loading (handleDrag eventType st) = loading st.
Proof.
  unfold handleDrag.
  destruct (String.eqb eventType "dragenter" || String.eqb eventType "dragover");
    [now repeat split | ].
  destruct (String.eqb eventType "dragleave"); now repeat split.
Qed.

Lemma handleFile_setDragActive (f : File) (b : bool) (st : State) :
  handleFile f (setDragActive b st) = setDragActive b (handleFile f st).
Proof.
  unfold handleFile.
  destruct (negb (includes validTypes (type f))
            && negb (matchesExtension (name f))); [reflexivity | ].
  destruct (size f >? maxSize)%Z; reflexivity.
Qed.

(** X4.  Drag events only move the highlight: whatever drag events precede
    a drop, the drop leaves the same state as without them, and the
    highlight is off after it. *)
Theorem drop_ignores_drag_events
  (types : list string) (files : list File) (st : State) :
  handleDrop files (fold_left (fun s t => handleDrag t s) types st)
  = handleDrop files st /\
  dragActive (handleDrop files st) = false.
Proof.
  split.
  - revert st. induction types as [ | t types IH]; intros st;
      [reflexivity | ].
    cbn [fold_left]. rewrite IH. unfold handleDrop.
    assert (E : setDragActive false (handleDrag t st)
                = setDragActive false st).
    { unfold handleDrag.
      destruct (String.eqb t "dragenter" || String.eqb t "dragover");
        [reflexivity | ].
      destruct (String.eqb t "dragleave"); reflexivity. }
    now rewrite E.
  - unfold handleDrop. destruct files as [ | f files]; [reflexivity | ].
    now rewrite handleFile_setDragActive.
Qed.

Lemma handleFile_holdsAccepted (f : File) (st : State) :
  holdsAccepted st -> holdsAccepted (handleFile f st).
Proof.
  intros H g.
  destruct (handleFile_cases f st) as [[-> _] | [[-> _] | [-> [Hs Hok]]]];
    cbn [file setError setFile]; try apply H.
  intros [= <-]. now split.
Qed.

Lemma step_file_cases {R : Type} (post : File -> Reply R)
  (st : State) (ev : Event) :
  (file (fst (step post st ev)) = file st \/
   file (fst (step post st ev)) = None \/
   exists f, file (fst (step post st ev)) = Some f /\ accepted f /\
             In f (offered [ev])) /\
  (posted (snd (step post st ev)) = [] \/
   exists f, ev = EvAnalyze /\ file st = Some f /\
             posted (snd (step post st ev)) = [f]).
Proof.
  assert (Hfile : forall f s,
            file (handleFile f s) = file s \/
            (file (handleFile f s) = Some f /\ accepted f)).
  { intros f s.
    destruct (handleFile_cases f s) as [[-> _] | [[-> _] | [-> [Hs Hok]]]];
      cbn [file setError setFile]; auto.
    right. split; [reflexivity | now split]. }
  destruct ev as [files | files | | ]; cbn [step fst snd posted].
  - split; [ | now left]. unfold handleDrop.
    destruct files as [ | f files]; [now left | ].
    destruct (Hfile f (setDragActive false st)) as [E | [E Ha]].
    + left. exact E.
    + right. right. exists f. cbn. auto.
  - split; [ | now left]. unfold handleChange.
    destruct files as [ | f files]; [now left | ].
    destruct (Hfile f st) as [E | [E Ha]].
    + now left.
    + right. right. exists f. cbn. auto.
  - split; [right; now left | now left].
  - unfold handleAnalyze. destruct (file st) as [f | ] eqn:Hf.
    + destruct (post f); cbn [fst snd posted file setLoading setError];
        (split; [left; exact Hf | right; now exists f]).
    + cbn [fst snd posted]. split; [left; exact Hf | now left].
Qed.

Lemma run_posts {R : Type} (post : File -> Reply R) (evs : list Event)
  (st : State) :
  holdsAccepted st ->
  (forall f, In f (snd (run post st evs)) ->
     accepted f /\ (file st = Some f \/ In f (offered evs))) /\
  (List.length (snd (run post st evs)) <= analyzeCount evs)%nat.
Proof.
  revert st. induction evs as [ | ev rest IH]; intros st Hst.
  - split; [intros f [] | cbn; lia].
  - cbn [run].
    destruct (step_file_cases post st ev) as [Hfile Hposted].
    destruct (step post st ev) as [st1 eff] eqn:Es. cbn [fst snd] in *.
    assert (Hst1 : holdsAccepted st1).
    { intros g Hg.
      destruct Hfile as [E | [E | [f [E [Ha _]]]]]; rewrite E in Hg.
      - now apply Hst.
      - discriminate.
      - injection Hg as <-. exact Ha. }
    destruct (IH st1 Hst1) as [IH1 IH2].
    destruct (run post st1 rest) as [st2 sent]. cbn [snd] in *.
    assert (Hoff : forall f, In f (offered [ev]) \/ In f (offered rest) ->
                             In f (offered (ev :: rest))).
    { intros f. destruct ev as [[ | g fs] | [ | g fs] | | ]; cbn; tauto. }
    split.
    + intros f Hin. apply in_app_or in Hin. destruct Hin as [Hin | Hin].
      * destruct Hposted as [E | [g [_ [Hg E]]]]; rewrite E in Hin;
          [destruct Hin | ].
        destruct Hin as [<- | []]. split; [now apply Hst | now left].
      * destruct (IH1 f Hin) as [Ha Hfrom]. split; [exact Ha | ].
        destruct Hfrom as [Hheld | Hlater]; [ | right; apply Hoff; now right].
        destruct Hfile as [E | [E | [g [E [_ Hg]]]]]; rewrite E in Hheld.
        -- now left.
        -- discriminate.
        -- injection Hheld as <-. right. apply Hoff. now left.
    + rewrite length_app. unfold analyzeCount in *. cbn [filter].
      destruct Hposted as [E | [g [-> [_ E]]]]; rewrite E; cbn [List.length].
      * destruct ev; cbn [List.length]; lia.
      * lia.
Qed.

(** X1.  In a session started from the initial state every file posted to
    the prediction endpoint was offered by a drop or change event of the
    session as its first file, has an allowed MIME type or extension and
    is within the size limit; and at most one file is posted for each click
    on Analyze. *)
Theorem posted_files_were_offered_and_accepted
  (R : Type) (post : File -> Reply R) (evs : list Event) :
  (forall f, In f (snd (run post initial evs)) ->
     In f (offered evs) /\ accepted f) /\
  (List.length (snd (run post initial evs)) <= analyzeCount evs)%nat.
Proof.
  assert (H0 : holdsAccepted initial) by (intros g; discriminate).
  destruct (run_posts post evs initial H0) as [H1 H2].
  split; [ | exact H2].
  intros f Hin. destruct (H1 f Hin) as [Ha [Hheld | Hoff]];
    [discriminate | now split].
Qed.

Lemma posted_files_were_offered_and_accepted_witness :
  In smallWav (offered [EvDrop [largeWav]; EvChange [smallWav]; EvAnalyze])
  /\ accepted smallWav.
Proof.
  apply (proj1 (posted_files_were_offered_and_accepted unit
                  (fun _ => Rejected None)
                  [EvDrop [largeWav]; EvChange [smallWav]; EvAnalyze])).
  vm_compute. left. reflexivity.
Defined.

End SessionFacts.

Module AppFacts.
Import Uploader Drag UploaderFacts SessionFacts App.

(** With the reply at hand at the click, the two halves make up
    [handleAnalyze]. *)
Lemma handleAnalyze_start_settle {R : Type} (post : File -> Reply R)
  (st : Uploader.State) :
  handleAnalyze post st
  = match handleAnalyze_start st with
    | (st', None) => (st', mkEffects [] None)
    | (st', Some f) =>
        (fst (handleAnalyze_settle (post f) st'),
         mkEffects [f] (snd (handleAnalyze_settle (post f) st')))
    end.
Proof.
  unfold handleAnalyze, handleAnalyze_start.
  destruct (file st) as [f | ]; [ | reflexivity].
  destruct (post f) as [data | detail]; reflexivity.
Qed.


Lemma nth_error_remove_nth {A : Type} (k : nat) (l : list A) (a : A) :
  nth_error l k = Some a -> Permutation l (a :: remove_nth k l).
Proof.
  revert k. induction l as [ | x l IH]; intros [ | k] H; try discriminate.
  - injection H as ->. apply Permutation_refl.
  - cbn [nth_error] in H. cbn [remove_nth].
    transitivity (x :: a :: remove_nth k l); [ | apply perm_swap].
    constructor. now apply IH.
Qed.

Lemma map_remove_nth {A B : Type} (f : A -> B) (k : nat) (l : list A) :
  map f (remove_nth k l) = remove_nth k (map f l).
Proof.
  revert k. induction l as [ | x l IH]; intros [ | k]; try reflexivity.
  cbn [remove_nth map]. now rewrite IH.
Qed.

(** The handlers of the uploader other than [handleAnalyze] leave
    [loading] alone. *)
Lemma handleFile_loading (f : File) (st : Uploader.State) :
  loading (handleFile f st) = loading st.
Proof.
  destruct (handleFile_cases f st) as [[-> _] | [[-> _] | [-> _]]];
    reflexivity.
Qed.

Lemma initial_Invariant {R : Type} : Invariant (@initial R).
Proof.
  constructor; cbn.
  - intros u [= <-] g. discriminate.
  - lia.
  - constructor.
  - constructor.
  - intros u [= <-]. cbn. split; [discriminate | intros []].
Qed.

Lemma step_Invariant {R : Type} (st : State R) (ev : Event R) :
  Invariant st ->
  Invariant (fst (step st ev)) /\
  Forall accepted (posted (snd (step st ev))) /\
  page (fst (step st ev))
  = match completed (snd (step st ev)) with
    | Some data => Home.handleAnalysisComplete data (page st)
    | None => page st
    end /\
  (List.length (pending (fst (step st ev)))
   + match completed (snd (step st ev)) with Some _ => 1 | None => 0 end
   <= List.length (pending st)
      + List.length (posted (snd (step st ev))))%nat.
Proof.
  intros Hinv. pose proof Hinv as [Hacc Hlen Hknown Hnd Hload].
  assert (Hstay : Invariant st /\
            Forall accepted (@nil File) /\ page st = page st /\
            (List.length (pending st) + 0
             <= List.length (pending st) + 0)%nat)
    by (split; [exact Hinv | split; [constructor | split; [reflexivity | lia]]]).
  assert (Hsame : forall u',
            (forall u, uploader st = Some u ->
               holdsAccepted u' /\ loading u' = loading u) ->
            uploader st <> None ->
            Invariant (setUploader (Some u') st)).
  { intros u' Hu' Hne. destruct (uploader st) as [u | ] eqn:Eu; [ | congruence].
    destruct (Hu' u eq_refl) as [Ha Hl].
    constructor; cbn; try assumption.
    - now intros ? [= <-].
    - intros ? [= <-]. rewrite Hl. now apply Hload. }
  destruct ev as [[ | ] | uev | k reply]; cbn [step].
  - (* SetActiveTab analyze *)
    destruct (activeTab st); cbn [fst snd posted completed pending page].
    + exact Hstay.
    + split; [ | split; [constructor | split; [reflexivity | cbn; lia]]].
      constructor; cbn; try assumption.
      * intros u [= <-] g. discriminate.
      * revert Hknown. apply Forall_impl. intros request [H1 H2]. split; [lia | exact H2].
      * intros u [= <-]. cbn. split; [discriminate | ].
        intros Hin. apply in_map_iff in Hin. destruct Hin as [request [E Hin]].
        rewrite Forall_forall in Hknown. destruct (Hknown _ Hin) as [Hle _]. lia.
  - (* SetActiveTab dashboard *)
    cbn [fst snd posted completed pending page].
    split; [ | split; [constructor | split; [reflexivity | cbn; lia]]].
    constructor; cbn; try assumption; discriminate.
  - (* Upload *)
    destruct (uploader st) as [u | ] eqn:Eu; [ | exact Hstay].
    pose proof (Hacc u eq_refl) as Hu.
    destruct uev as [files | files | | ].
    + cbn [fst snd posted completed setUploader pending page List.length].
      split; [ | split; [constructor | split; [reflexivity | lia]]].
      apply Hsame; [ | congruence]. intros ? [= <-]. split.
      * unfold handleDrop. destruct files as [ | f files].
        -- intros g Hg. now apply Hu.
        -- apply handleFile_holdsAccepted. intros g Hg. now apply Hu.
      * unfold handleDrop. destruct files as [ | f files]; [reflexivity | ].
        now rewrite handleFile_loading.
    + cbn [fst snd posted completed setUploader pending page List.length].
      split; [ | split; [constructor | split; [reflexivity | lia]]].
      apply Hsame; [ | congruence]. intros ? [= <-]. split.
      * unfold handleChange. destruct files as [ | f files]; [exact Hu | ].
        now apply handleFile_holdsAccepted.
      * unfold handleChange. destruct files as [ | f files]; [reflexivity | ].
        now rewrite handleFile_loading.
    + cbn [fst snd posted completed setUploader pending page List.length].
      split; [ | split; [constructor | split; [reflexivity | lia]]].
      apply Hsame; [ | congruence]. intros ? [= <-]. split; [ | reflexivity].
      intros g Hg. discriminate.
    + destruct (loading u) eqn:El.
      * exact Hstay.
      * unfold handleAnalyze_start. destruct (file u) as [f | ] eqn:Ef.
        -- cbn [fst snd posted completed pending page].
           split; [ | split; [ | split; [reflexivity | rewrite length_app; cbn; lia]]].
           ++ assert (Hnot : ~ In (mounts st) (map origin (pending st))).
              { intros Hin. apply (Hload u eq_refl) in Hin. congruence. }
              constructor; cbn; try assumption.
              ** intros ? [= <-] g Hg. cbn in Hg. now apply Hu.
              ** apply Forall_app. split; [exact Hknown | ].
                 constructor; [ | constructor]. cbn. split; [lia | now apply Hu].
              ** rewrite map_app. cbn [map origin].
                 apply NoDup_app; [exact Hnd | repeat constructor; intros [] | ].
                 intros x Hx [<- | []]. contradiction.
              ** intros ? [= <-]. cbn. split; [intros _ | reflexivity].
                 rewrite map_app. apply in_or_app. right. now left.
           ++ constructor; [now apply Hu | constructor].
        -- cbn [fst snd posted completed setUploader pending page
                List.length].
           split; [ | split; [constructor | split; [reflexivity | lia]]].
           apply Hsame; [ | congruence]. now intros ? [= <-].
  - (* Settle *)
    destruct (nth_error (pending st) k) as [request | ] eqn:Ek;
      [ | exact Hstay].
    pose proof (nth_error_remove_nth _ _ _ Ek) as P.
    assert (Pm : Permutation (map origin (pending st))
                   (origin request :: map origin (remove_nth k (pending st))))
      by (change (origin request :: map origin (remove_nth k (pending st)))
            with (map origin (request :: remove_nth k (pending st)));
          now apply Permutation_map).
    assert (Hnd' : NoDup (origin request
                          :: map origin (remove_nth k (pending st))))
      by (now apply (Permutation_NoDup Pm)).
    inversion Hnd' as [ | ? ? Hfresh Hrest]; subst.
    cbn [fst snd posted completed pending page].
    split; [ | split; [constructor | split]].
    + constructor; cbn.
      * intros u'. destruct (uploader st) as [u | ] eqn:Eu; [ | discriminate].
        pose proof (Hacc u eq_refl) as Hu.
        destruct (origin request =? mounts st)%nat; intros [= <-]; [ | exact Hu].
        destruct reply; cbn; intros g Hg; now apply Hu.
      * destruct reply; [ | exact Hlen].
        cbn [Home.handleAnalysisComplete Home.history]. unfold Home.slice0.
        rewrite length_firstn. lia.
      * apply (Permutation_Forall P) in Hknown.
        now inversion Hknown.
      * exact Hrest.
      * intros u'. destruct (uploader st) as [u | ] eqn:Eu; [ | discriminate].
        destruct (Nat.eqb_spec (origin request) (mounts st)) as [E | Hne];
          intros [= <-].
        -- rewrite <- E. split; [ | contradiction].
           destruct reply; cbn; discriminate.
        -- rewrite (Hload u eq_refl). split; intros Hin.
           ++ apply (Permutation_in _ Pm) in Hin.
              destruct Hin as [E | Hin]; [congruence | exact Hin].
           ++ apply (Permutation_in _ (Permutation_sym Pm)). now right.
    + destruct reply; reflexivity.
    + apply Permutation_length in P. cbn [List.length] in P.
      destruct reply; lia.
Qed.

Lemma firstn_app_firstn {A : Type} (m n : nat) (l1 l2 : list A) :
  (m <= n)%nat -> firstn m (l1 ++ firstn n l2) = firstn m (l1 ++ l2).
Proof.
  revert m. induction l1 as [ | x l1 IH]; intros m Hm.
  - cbn [app]. rewrite firstn_firstn. f_equal. lia.
  - destruct m as [ | m]; [reflexivity | ].
    cbn [app firstn]. f_equal. apply IH. lia.
Qed.

Lemma run_Invariant {R : Type} (evs : list (Event R)) (st : State R) :
  Invariant st ->
  let st' := fst (run st evs) in
  let files := fst (snd (run st evs)) in
  let bodies := snd (snd (run st evs)) in
  Invariant st' /\
  Forall accepted files /\
  Home.history (page st')
  = firstn 10 (rev bodies ++ Home.history (page st)) /\
  Home.results (page st')
  = match rev bodies with
    | data :: _ => Some data
    | [] => Home.results (page st)
    end /\
  (List.length (pending st') + List.length bodies
   <= List.length (pending st) + List.length files)%nat.
Proof.
  revert st. induction evs as [ | ev rest IH]; intros st Hinv; cbn zeta.
  - cbn [run fst snd rev app List.length].
    split; [exact Hinv | split; [constructor | ]].
    rewrite firstn_all2 by apply (history_short st Hinv).
    repeat split. lia.
  - cbn [run].
    destruct (step_Invariant st ev Hinv) as [Hinv1 [Hacc1 [Hpage Hcount]]].
    destruct (step st ev) as [st1 eff]. cbn [fst snd] in *.
    destruct (IH st1 Hinv1) as [Hinv2 [Hacc2 [Hh [Hr Hc]]]].
    destruct (run st1 rest) as [st2 [files bodies]]. cbn [fst snd] in *.
    split; [exact Hinv2 | ]. split; [apply Forall_app; now split | ].
    rewrite Hh, Hr, Hpage, length_app.
    destruct (completed eff) as [data | ].
    + cbn [rev List.length]. rewrite <- app_assoc. cbn [app].
      split; [ | split].
      * cbn [Home.handleAnalysisComplete Home.history]. unfold Home.slice0.
        now apply firstn_app_firstn.
      * destruct (rev bodies); reflexivity.
      * lia.
    + split; [reflexivity | split; [reflexivity | lia]].
Qed.

(** X5.  In any session of the page, whatever the order in which the
    replies arrive and whatever tabs are shown meanwhile: the history is
    the response bodies of the fulfilled requests in the order of their
    arrival, newest first, cut to ten, and the result shown is the newest
    of them; every file posted was accepted by [handleFile]; no more
    replies were received than requests were posted; and the mounted
    uploader shows [loading] exactly while a request of its own is in
    flight, of which there is at most one. *)
Theorem page_history_is_fulfilled_requests
  (R : Type) (evs : list (Event R)) :
  let st := fst (run initial evs) in
  let files := fst (snd (run initial evs)) in
  let bodies := snd (snd (run initial evs)) in
  Home.history (page st) = firstn 10 (rev bodies) /\
  Home.results (page st) = hd_error (rev bodies) /\
  Forall accepted files /\
  (List.length (pending st) + List.length bodies <= List.length files)%nat /\
  Forall (fun request => accepted (sent request)) (pending st) /\
  NoDup (map origin (pending st)) /\
  (forall u, uploader st = Some u ->
     (loading u = true <-> In (mounts st) (map origin (pending st)))).
Proof.
  cbn zeta.
  destruct (run_Invariant evs initial initial_Invariant)
    as [[_ _ Hknown Hnd Hload] [Hacc [Hh [Hr Hc]]]].
  cbn [initial page pending Home.initial Home.history Home.results
       List.length] in Hh, Hr, Hc.
  rewrite app_nil_r in Hh.
  split; [exact Hh | ]. split.
  { rewrite Hr. now destruct (rev (snd (snd (run initial evs)))). }
  split; [exact Hacc | ]. split; [exact Hc | ]. split.
  { revert Hknown. apply Forall_impl. now intros request [_ H]. }
  split; [exact Hnd | exact Hload].
Qed.

(** Two requests, the second posted by a second uploader after a visit to
    the dashboard, and answered before the first. *)
Lemma page_history_is_fulfilled_requests_witness :
  let evs :=
    [Upload (EvDrop [smallWav]); Upload EvAnalyze;
     SetActiveTab dashboard; SetActiveTab analyze;
     Upload (EvChange [smallWav]); Upload EvAnalyze;
     Settle 1 (Fulfilled "second"%string);
     Settle 0 (Fulfilled "first"%string)] in
  Home.history (page (fst (run initial evs)))
  = ["first"%string; "second"%string] /\
  fst (snd (run initial evs)) = [smallWav; smallWav] /\
  pending (fst (run initial evs)) = [].
Proof.
  cbn zeta.
  destruct (page_history_is_fulfilled_requests string
              [Upload (EvDrop [smallWav]); Upload EvAnalyze;
               SetActiveTab dashboard; SetActiveTab analyze;
               Upload (EvChange [smallWav]); Upload EvAnalyze;
               Settle 1 (Fulfilled "second"%string);
               Settle 0 (Fulfilled "first"%string)]) as [Hh _].
  split; [rewrite Hh; reflexivity | split; reflexivity].
Defined.

End AppFacts.

Module ResultsFacts.
Import Results.
Local Open Scope Q_scope.

Section Sorting.

Context {A : Type} (before : A -> A -> bool).
Hypothesis before_total : forall x y, before x y = true \/ before y x = true.
Hypothesis before_trans :
  forall x y z, before x y = true -> before y z = true -> before x z = true.

Lemma insertBy_perm (x : A) (l : list A) :
  Permutation (insertBy before x l) (x :: l).
Proof.
  induction l as [ | y l IH]; cbn [insertBy]; [apply Permutation_refl | ].
  destruct (before x y); [apply Permutation_refl | ].
  transitivity (y :: x :: l); [now constructor | apply perm_swap].
Qed.

Lemma sortBy_perm (l : list A) : Permutation (sortBy before l) l.
Proof.
  induction l as [ | x l IH]; [constructor | ].
  cbn [sortBy fold_right]. fold (sortBy before l).
  transitivity (x :: sortBy before l);
    [apply insertBy_perm | now constructor].
Qed.

Lemma insertBy_sorted (x : A) (l : list A) :
  StronglySorted (fun a b => before a b = true) l ->
  StronglySorted (fun a b => before a b = true) (insertBy before x l).
Proof.
  induction 1 as [ | y l Hs IH Hall]; cbn [insertBy].
  - repeat constructor.
  - destruct (before x y) eqn:E.
    + constructor; [now constructor | ].
      constructor; [exact E | ].
      revert Hall. apply Forall_impl. intros z Hz. now apply before_trans with y.
    + constructor; [exact IH | ].
      assert (Hyx : before y x = true)
        by (destruct (before_total x y); congruence).
      rewrite Forall_forall in *. intros z Hz.
      apply (Permutation_in _ (insertBy_perm x l)) in Hz.
      destruct Hz as [<- | Hz]; auto.
Qed.

Lemma sortBy_sorted (l : list A) :
  StronglySorted (fun a b => before a b = true) (sortBy before l).
Proof.
  induction l as [ | x l IH]; [constructor | ].
  cbn [sortBy fold_right]. now apply insertBy_sorted.
Qed.

(** The head of the sorted list is an element that the comparator puts
    before every other. *)
Lemma sortBy_head (l : list A) :
  l <> [] ->
  exists m, hd_error (sortBy before l) = Some m /\ In m l /\
            forall x, In x l -> before m x = true.
Proof.
  intros Hne. pose proof (sortBy_perm l) as P.
  pose proof (sortBy_sorted l) as S.
  destruct (sortBy before l) as [ | m s].
  - apply Permutation_nil in P. congruence.
  - exists m. split; [reflexivity | ]. split.
    + apply (Permutation_in _ P). now left.
    + intros x Hx. apply (Permutation_in _ (Permutation_sym P)) in Hx.
      inversion S as [ | ? ? _ Hall]; subst.
      destruct Hx as [<- | Hx].
      * destruct (before_total m m); assumption.
      * rewrite Forall_forall in Hall. now apply Hall.
Qed.

End Sorting.

Lemma descending_total {K : Type} (x y : K * Q) :
  descending x y = true \/ descending y x = true.
Proof.
  unfold descending. rewrite !Qle_bool_iff.
  destruct (Qlt_le_dec (snd x) (snd y)); [right; lra | left; lra].
Qed.

Lemma descending_trans {K : Type} (x y z : K * Q) :
  descending x y = true -> descending y z = true -> descending x z = true.
Proof. unfold descending. rewrite !Qle_bool_iff. lra. Qed.

Lemma sortBy_descending_head {K : Type} (l : list (K * Q)) :
  hd_error (sortBy descending l) = firstMax l.
Proof.
  induction l as [ | x l IH]; [reflexivity | ].
  cbn [sortBy fold_right firstMax]. fold (sortBy (@descending K) l).
  rewrite <- IH.
  destruct (sortBy descending l) as [ | y s]; [reflexivity | ].
  cbn [insertBy hd_error]. unfold descending at 1.
  now destruct (Qle_bool (snd y) (snd x)).
Qed.

Lemma firstMax_In {K : Type} (l : list (K * Q)) (m : K * Q) :
  firstMax l = Some m -> In m l.
Proof.
  revert m. induction l as [ | x l IH]; intros m; [discriminate | ].
  cbn [firstMax]. destruct (firstMax l) as [m' | ].
  - destruct (Qle_bool (snd m') (snd x)); intros [= <-];
      [now left | right; now apply IH].
  - intros [= <-]. now left.
Qed.

(** X8.  The rows of the probability list are the entries rearranged in
    nonincreasing order of probability, and the first row is the first
    entry among those of largest probability. *)
Theorem probabilityList_sorted_descending (probabilities : list (string * Q)) :
  Permutation (probabilityList probabilities) probabilities /\
  StronglySorted (fun x y => snd y <= snd x) (probabilityList probabilities) /\
  hd_error (probabilityList probabilities) = firstMax probabilities.
Proof.
  unfold probabilityList. split; [apply sortBy_perm | split].
  - pose proof (sortBy_sorted descending (@descending_total string)
                  (@descending_trans string) probabilities) as S.
    induction S as [ | x l _ IH Hall]; constructor; [exact IH | ].
    revert Hall. apply Forall_impl. intros y Hy.
    now apply Qle_bool_iff in Hy.
  - apply sortBy_descending_head.
Qed.

Lemma Qle_bool_false (a b : Q) : Qle_bool a b = false -> b < a.
Proof.
  intros H. apply Qnot_le_lt. intros Hc. apply Qle_bool_iff in Hc.
  congruence.
Qed.

Lemma level_spec (score : Q) :
  (getSatisfactionLevel score = Excellent <-> 8 <= score) /\
  (getSatisfactionLevel score = Good <-> 6 <= score /\ score < 8) /\
  (getSatisfactionLevel score = Fair <-> 4 <= score /\ score < 6) /\
  (getSatisfactionLevel score = Poor <-> score < 4).
Proof.
  unfold getSatisfactionLevel.
  destruct (Qle_bool 8 score) eqn:E8;
    [apply Qle_bool_iff in E8 | apply Qle_bool_false in E8;
     destruct (Qle_bool 6 score) eqn:E6;
     [apply Qle_bool_iff in E6 | apply Qle_bool_false in E6;
      destruct (Qle_bool 4 score) eqn:E4;
      [apply Qle_bool_iff in E4 | apply Qle_bool_false in E4]]].
  all: split; [ | split; [ | split]]; split; intros Hx;
    try discriminate Hx; try reflexivity; try lra;
    try (destruct Hx; lra); try (split; lra).
Qed.

(** Two numbers on the same side of a threshold compare alike with it. *)
Lemma same_side (t s s' r : Q) :
  Qabs (s' - s) <= r -> r < Qabs (s - t) -> Qle_bool t s' = Qle_bool t s.
Proof.
  intros Hnear Hfar. apply Qabs_Qle_condition in Hnear.
  assert (Hcases : s - t < - r \/ r < s - t).
  { destruct (Qlt_le_dec (s - t) 0) as [Hneg | Hpos].
    - left. rewrite Qabs_neg in Hfar by lra. lra.
    - right. rewrite Qabs_pos in Hfar by lra. lra. }
  destruct (Qle_bool t s') eqn:E1, (Qle_bool t s) eqn:E2; try reflexivity.
  - apply Qle_bool_iff in E1. apply Qle_bool_false in E2. lra.
  - apply Qle_bool_false in E1. apply Qle_bool_iff in E2. lra.
Qed.

(** The level of the exact value of the formula. *)
Lemma level_of_blend (e : Emotion) (c : Q) :
  0 <= c -> c <= 1 ->
  let s := Scorer.blend (Scorer.base_score e) c in
  (getSatisfactionLevel s = Excellent <-> e = happiness /\ 3 # 4 <= c) /\
  (getSatisfactionLevel s = Good <->
   (e = happiness /\ 1 # 4 <= c /\ c < 3 # 4) \/
   (e = surprise /\ 1 # 2 <= c) \/
   (e = neutral /\ c == 1)) /\
  (getSatisfactionLevel s = Poor <->
   (e = anger /\ 1 # 4 < c) \/ (e = disgust /\ 1 # 3 < c) \/
   (e = fear /\ 2 # 5 < c) \/ (e = sadness /\ 1 # 2 < c)).
Proof.
  intros H0 H1 s.
  destruct (level_spec s) as [LE [LG [_ LP]]].
  rewrite LE, LG, LP. unfold s, Scorer.blend.
  destruct e; cbn [Scorer.base_score].
  all: split; [ | split]; split; intros Hx;
    repeat match goal with
      | Hd : _ \/ _ |- _ => destruct Hd
      | Hc : _ /\ _ |- _ => destruct Hc
      end;
    try discriminate; try lra.
  all: first
    [ solve [split; [reflexivity | lra]]
    | solve [left; split; [reflexivity | first [lra | split; lra]]]
    | solve [right; left; split; [reflexivity | first [lra | split; lra]]]
    | solve [right; right; left; split; [reflexivity | lra]]
    | solve [right; right; split; [reflexivity | lra]]
    | solve [right; right; right; split; [reflexivity | lra]] ].
Qed.

(** X6.  Which level the results card shows for the binary64 score that
    the documented formula gives to emotion [e] at confidence [c] in
    [0, 1].  Unless the exact value of the formula is within [2 ^ -47] of
    one of the thresholds 4, 6 and 8, it is the level of that exact value:
    Excellent only for happiness at confidence at least 3/4; Good for
    happiness from 1/4, surprise from 1/2 and neutral at confidence 1;
    Poor only for anger above 1/4, disgust above 1/3, fear above 2/5 and
    sadness above 1/2. *)
Theorem level_of_blended_score (e : Emotion) (c : Q) :
  0 <= c -> c <= 1 ->
  let s := Scorer.blend (Scorer.base_score e) c in
  let s64 := Scorer.blend64 (Scorer.base_score e) c in
  ((forall t, In t [4; 6; 8] -> Scorer.rounding < Qabs (s - t)) ->
   getSatisfactionLevel s64 = getSatisfactionLevel s) /\
  (getSatisfactionLevel s = Excellent <-> e = happiness /\ 3 # 4 <= c) /\
  (getSatisfactionLevel s = Good <->
   (e = happiness /\ 1 # 4 <= c /\ c < 3 # 4) \/
   (e = surprise /\ 1 # 2 <= c) \/
   (e = neutral /\ c == 1)) /\
  (getSatisfactionLevel s = Poor <->
   (e = anger /\ 1 # 4 < c) \/ (e = disgust /\ 1 # 3 < c) \/
   (e = fear /\ 2 # 5 < c) \/ (e = sadness /\ 1 # 2 < c)).
Proof.
  intros H0 H1 s s64. split; [ | now apply level_of_blend].
  intros Hfar.
  assert (Hnear : Qabs (s64 - s) <= Scorer.rounding).
  { apply ScorerFacts.blend64_error; [apply ScorerFacts.base_score_range | ].
    now split. }
  unfold getSatisfactionLevel.
  rewrite (same_side 8 s s64 Scorer.rounding Hnear)
    by (apply Hfar; cbn; tauto).
  rewrite (same_side 6 s s64 Scorer.rounding Hnear)
    by (apply Hfar; cbn; tauto).
  rewrite (same_side 4 s s64 Scorer.rounding Hnear)
    by (apply Hfar; cbn; tauto).
  reflexivity.
Qed.

Lemma level_of_blended_score_witness :
  getSatisfactionLevel (Scorer.blend64 (Scorer.base_score happiness) 0.89)
  = getSatisfactionLevel (Scorer.blend (Scorer.base_score happiness) 0.89)
  /\ getSatisfactionLevel (Scorer.blend (Scorer.base_score happiness) 0.89)
     = Excellent.
Proof.
  destruct (level_of_blended_score happiness 0.89 ltac:(discriminate)
              ltac:(discriminate)) as [Hsame [Hexcellent _]].
  split.
  - apply Hsame. intros t [<- | [<- | [<- | []]]]; vm_compute; reflexivity.
  - apply Hexcellent. split; [reflexivity | discriminate].
Defined.

(** The binary64 product of a probability and 100 is within [2 ^ -47] of
    the exact product. *)
Lemma percent_error (q : Q) :
  0 <= q <= 1 -> Qabs (Binary64.mul q 100 - q * 100) <= Scorer.rounding.
Proof.
  intros Hq. unfold Binary64.mul.
  apply (Binary64Facts.round_error 7); [lia | ].
  apply Qabs_Qlt_condition. change (2 ^ 7) with 128. split; lra.
Qed.

(** X7.  The pie chart has one slice per probability entry, in order; the
    value of a slice is the binary64 product of the probability and 100,
    which for a probability in [0, 1] is within [2 ^ -47] of the exact
    product; the slice of one of the seven emotions carries the
    capitalized name and the color of its configuration; the slice of a
    key that [EMOTION_CONFIG] does not have carries the key itself and
    the grey fallback. *)
Theorem chartData_slices (probabilities : list (string * Q)) :
  List.length (chartData probabilities) = List.length probabilities /\
  map slice_value (chartData probabilities)
  = map (fun kv => Binary64.mul (snd kv) 100) probabilities /\
  (Forall (fun kv => 0 <= snd kv <= 1) probabilities ->
   Forall2 (fun kv slice =>
              Qabs (slice_value slice - snd kv * 100) <= Scorer.rounding)
           probabilities (chartData probabilities)) /\
  (forall e q ps,
     chartData ((name e, q) :: ps)
     = mkSlice (Dashboard.capitalize (name e)) (Binary64.mul q 100)
               (emotionColor (name e)) :: chartData ps) /\
  (forall key q ps,
     lookup key EMOTION_CONFIG = None ->
     chartData ((key, q) :: ps)
     = mkSlice key (Binary64.mul q 100) "#6b7280" :: chartData ps).
Proof.
  split; [apply length_map | ].
  split; [unfold chartData; now rewrite map_map | ]. split; [ | split].
  - induction 1 as [ | kv ps Hq _ IH]; cbn [chartData map]; constructor.
    + cbn [slice_value]. now apply percent_error.
    + exact IH.
  - intros e q ps. destruct e; reflexivity.
  - intros key q ps H. cbn [chartData map fst snd]. now rewrite H.
Qed.

Lemma chartData_slices_witness :
  Forall2 (fun kv slice =>
             Qabs (slice_value slice - snd kv * 100) <= Scorer.rounding)
          [("happiness"%string, Binary64.round 0.07); ("joy"%string, 1)]
          (chartData [("happiness"%string, Binary64.round 0.07);
                      ("joy"%string, 1)]) /\
  chartData [("joy"%string, 1)]
  = [mkSlice "joy" (Binary64.mul 1 100) "#6b7280"].
Proof.
  destruct (chartData_slices
              [("happiness"%string, Binary64.round 0.07); ("joy"%string, 1)])
    as [_ [_ [Hnear [_ Hother]]]].
  split.
  - apply Hnear. repeat constructor; vm_compute; discriminate.
  - apply (Hother "joy"%string 1 []). reflexivity.
Defined.

End ResultsFacts.

Module DashboardFacts.
Import Results Dashboard ResultsFacts.

Lemma lookup_In {V : Type} (key : string) (obj : list (string * V)) (v : V) :
  lookup key obj = Some v -> In (key, v) obj.
Proof.
  induction obj as [ | [k w] obj IH]; [discriminate | ].
  cbn [lookup]. destruct (String.eqb_spec k key) as [-> | Hne].
  - intros [= <-]. now left.
  - intros H. right. now apply IH.
Qed.

Lemma In_lookup {V : Type} (key : string) (obj : list (string * V)) (v : V) :
  NoDup (map fst obj) -> In (key, v) obj -> lookup key obj = Some v.
Proof.
  induction obj as [ | [k w] obj IH]; intros Hnd Hin; [destruct Hin | ].
  cbn [map fst] in Hnd. inversion Hnd as [ | ? ? Hnot Hnd']; subst.
  cbn [lookup]. destruct Hin as [[= -> ->] | Hin].
  - now rewrite String.eqb_refl.
  - destruct (String.eqb_spec k key) as [-> | Hne]; [ | now apply IH].
    exfalso. apply Hnot. apply in_map_iff. now exists (key, v).
Qed.

Lemma bump_countOf (key k : string) (acc : list (string * nat)) :
  key <> "__proto__"%string ->
  countOf k (bump key acc)
  = (countOf k acc + if String.eqb key k then 1 else 0)%nat.
Proof.
  intros Hkey. unfold bump.
  destruct (String.eqb_spec key "__proto__"%string) as [E | _]; [contradiction | ].
  unfold countOf. induction acc as [ | [k0 n] acc IH]; cbn [increment lookup].
  - destruct (String.eqb key k); reflexivity.
  - destruct (String.eqb_spec k0 key) as [-> | Hne]; cbn [lookup].
    + destruct (String.eqb key k); lia.
    + destruct (String.eqb_spec k0 k) as [-> | Hne'].
      * destruct (String.eqb_spec key k); [congruence | lia].
      * exact IH.
Qed.

Lemma bump_keys (key : string) (acc : list (string * nat)) :
  key <> "__proto__"%string ->
  (In key (map fst acc) /\ map fst (bump key acc) = map fst acc) \/
  (~ In key (map fst acc) /\ map fst (bump key acc) = map fst acc ++ [key]).
Proof.
  intros Hkey. unfold bump.
  destruct (String.eqb_spec key "__proto__"%string) as [E | _]; [contradiction | ].
  induction acc as [ | [k0 n] acc IH]; cbn [increment map fst].
  - right. split; [intros [] | reflexivity].
  - destruct (String.eqb_spec k0 key) as [-> | Hne]; cbn [map fst].
    + left. split; [now left | reflexivity].
    + destruct IH as [[Hin E] | [Hnot E]]; rewrite E.
      * left. split; [now right | reflexivity].
      * right. split; [ | reflexivity]. intros [H | H]; auto.
Qed.

Lemma bump_positive (key : string) (acc : list (string * nat)) :
  Forall (fun kn => 0 < snd kn)%nat acc ->
  Forall (fun kn => 0 < snd kn)%nat (bump key acc).
Proof.
  intros Hacc. unfold bump.
  destruct (String.eqb key "__proto__"%string); [exact Hacc | ].
  induction Hacc as [ | [k0 n] acc Hn Hacc IH]; cbn [increment].
  - repeat constructor.
  - cbn [snd] in Hn.
    destruct (String.eqb k0 key); constructor; cbn [snd];
      try lia; assumption.
Qed.

Lemma bump_total (key : string) (acc : list (string * nat)) :
  key <> "__proto__"%string ->
  list_sum (map snd (bump key acc)) = S (list_sum (map snd acc)).
Proof.
  intros Hkey. unfold bump.
  destruct (String.eqb_spec key "__proto__"%string) as [E | _]; [contradiction | ].
  induction acc as [ | [k0 n] acc IH];
    cbn [increment map snd list_sum fold_right]; [reflexivity | ].
  destruct (String.eqb k0 key); cbn [map snd list_sum fold_right].
  - lia.
  - fold (list_sum (map snd (increment key acc))).
    fold (list_sum (map snd acc)). rewrite IH. lia.
Qed.

Lemma emotionCounts_snoc (history : list Analysis) (item : Analysis) :
  emotionCounts (history ++ [item])
  = bump (emotion item) (emotionCounts history).
Proof. unfold emotionCounts. now rewrite fold_left_app. Qed.

Lemma occurrences_snoc (key : string) (history : list Analysis)
  (item : Analysis) :
  occurrences key (history ++ [item])
  = (occurrences key history
     + if String.eqb (emotion item) key then 1 else 0)%nat.
Proof.
  unfold occurrences. rewrite filter_app, length_app. cbn [filter].
  destruct (String.eqb (emotion item) key); cbn [List.length]; lia.
Qed.

(** None of the seven names is the key that is never stored. *)
Lemma reported_stored (history : list Analysis) :
  reported history ->
  Forall (fun item => emotion item <> "__proto__"%string) history.
Proof.
  unfold reported. apply Forall_impl. intros item Hin E. rewrite E in Hin.
  cbn in Hin. repeat (destruct Hin as [Hin | Hin]; [discriminate | ]).
  exact Hin.
Qed.

Lemma emotionCounts_invariant (history : list Analysis) :
  Forall (fun item => emotion item <> "__proto__"%string) history ->
  (forall key, countOf key (emotionCounts history) = occurrences key history)
  /\ NoDup (map fst (emotionCounts history))
  /\ Forall (fun kn => 0 < snd kn)%nat (emotionCounts history)
  /\ list_sum (map snd (emotionCounts history)) = List.length history
  /\ incl (map fst (emotionCounts history)) (map emotion history).
Proof.
  induction history as [ | item history IH] using rev_ind; intros Hst.
  - repeat split; try constructor. intros k [].
  - apply Forall_app in Hst. destruct Hst as [Hst Hitem].
    inversion Hitem as [ | ? ? Hkey _]; subst.
    destruct (IH Hst) as [Hc [Hnd [Hpos [Hsum Hincl]]]].
    rewrite emotionCounts_snoc. split; [ | split; [ | split; [ | split]]].
    + intros key. now rewrite bump_countOf, occurrences_snoc, Hc.
    + destruct (bump_keys (emotion item) (emotionCounts history) Hkey)
        as [[_ ->] | [Hnot ->]]; [exact Hnd | ].
      apply NoDup_app; [exact Hnd | repeat constructor; intros [] | ].
      intros k Hk [<- | []]. contradiction.
    + now apply bump_positive.
    + rewrite bump_total, Hsum, length_app by exact Hkey.
      cbn [List.length]. lia.
    + rewrite map_app. cbn [map].
      destruct (bump_keys (emotion item) (emotionCounts history) Hkey)
        as [[_ ->] | [_ ->]].
      * apply incl_appl. exact Hincl.
      * apply incl_app; [now apply incl_appl | ].
        apply incl_appr. apply incl_refl.
Qed.

Lemma lookup_emotionCounts (history : list Analysis) (key : string) :
  Forall (fun item => emotion item <> "__proto__"%string) history ->
  lookup key (emotionCounts history)
  = if (occurrences key history =? 0)%nat then None
    else Some (occurrences key history).
Proof.
  intros Hst.
  destruct (emotionCounts_invariant history Hst) as [Hc [_ [Hpos _]]].
  specialize (Hc key). unfold countOf in Hc.
  destruct (lookup key (emotionCounts history)) as [n | ] eqn:E.
  - apply lookup_In in E. rewrite Forall_forall in Hpos.
    specialize (Hpos _ E). cbn [snd] in Hpos. subst n.
    destruct (Nat.eqb_spec (occurrences key history) 0); [lia | reflexivity].
  - now rewrite <- Hc.
Qed.

Lemma list_sum_positive (l : list (string * nat)) :
  Forall (fun kn => 0 < snd kn)%nat l ->
  (List.length l <= list_sum (map snd l))%nat.
Proof.
  induction 1 as [ | kn l Hn _ IH]; cbn [map list_sum fold_right List.length];
    [lia | ].
  fold (list_sum (map snd l)). lia.
Qed.

(** X10.  For a history of responses, [emotionCounts] holds for each
    emotion that occurs the number of items with that emotion and nothing
    for the others; its keys are distinct; the counts add up to the number
    of items; and the number of unique emotions is at most the number of
    items and at most seven, and at least one when there is an item. *)
Theorem emotionCounts_are_occurrences (history : list Analysis) :
  reported history ->
  (forall key,
     lookup key (emotionCounts history)
     = if (occurrences key history =? 0)%nat then None
       else Some (occurrences key history)) /\
  NoDup (map fst (emotionCounts history)) /\
  list_sum (map snd (emotionCounts history)) = List.length history /\
  (List.length (emotionCounts history) <= List.length history)%nat /\
  (List.length (emotionCounts history) <= 7)%nat /\
  (history <> [] -> (1 <= List.length (emotionCounts history))%nat).
Proof.
  intros Hrep. pose proof (reported_stored history Hrep) as Hst.
  destruct (emotionCounts_invariant history Hst)
    as [Hc [Hnd [Hpos [Hsum Hincl]]]].
  split; [intros key; now apply lookup_emotionCounts | ].
  split; [exact Hnd | ]. split; [exact Hsum | ]. split; [ | split].
  - rewrite <- Hsum. now apply list_sum_positive.
  - rewrite <- (length_map fst).
    change 7%nat with (List.length (map name emotions)).
    apply NoDup_incl_length; [exact Hnd | ].
    intros k Hk. apply Hincl in Hk. apply in_map_iff in Hk.
    destruct Hk as [item [<- Hitem]].
    unfold reported in Hrep. rewrite Forall_forall in Hrep. now apply Hrep.
  - intros Hne. destruct (emotionCounts history) eqn:E; [ | cbn; lia].
    destruct history; [congruence | ]. cbn in Hsum. discriminate.
Qed.

Lemma emotionCounts_are_occurrences_witness :
  lookup "happiness" (emotionCounts [happyCall; angryCall; happyCall])
  = Some 2%nat /\
  (1 <= List.length (emotionCounts [happyCall; angryCall; happyCall]))%nat.
Proof.
  destruct (emotionCounts_are_occurrences [happyCall; angryCall; happyCall])
    as [H [_ [_ [_ [_ Hone]]]]].
  - repeat constructor; cbn; tauto.
  - split; [exact (H "happiness"%string) | apply Hone; discriminate].
Defined.

Lemma byCount_total (x y : string * nat) :
  byCount x y = true \/ byCount y x = true.
Proof.
  unfold byCount. destruct (Nat.leb_spec (snd y) (snd x)); [now left | ].
  right. apply Nat.leb_le. lia.
Qed.

Lemma byCount_trans (x y z : string * nat) :
  byCount x y = true -> byCount y z = true -> byCount x z = true.
Proof. unfold byCount. rewrite !Nat.leb_le. lia. Qed.

(** X11.  For a history of responses whose emotions are among the seven
    names, the dashboard never reads a field of [undefined]: it shows the
    placeholder exactly when the history is empty, and otherwise the most
    common emotion is defined, occurs in the history, and no emotion
    occurs more often. *)
Theorem mostCommonEmotion_defined_and_maximal (history : list Analysis) :
  reported history ->
  render history <> TypeError /\
  (render history = NoDataYet <-> history = []) /\
  (history <> [] ->
   exists key n,
     mostCommonEmotion history = Some (key, n) /\
     n = occurrences key history /\ (0 < n)%nat /\
     forall key', (occurrences key' history <= n)%nat).
Proof.
  intros Hrep. pose proof (reported_stored history Hrep) as Hst.
  assert (Hmost : history <> [] ->
            exists key n,
              mostCommonEmotion history = Some (key, n) /\
              n = occurrences key history /\ (0 < n)%nat /\
              forall key', (occurrences key' history <= n)%nat).
  { intros Hne.
    destruct (emotionCounts_invariant history Hst)
      as [Hc [Hnd [Hpos [Hsum _]]]].
    assert (Hcounts : emotionCounts history <> []).
    { intros E. rewrite E in Hsum. destruct history; [congruence | ].
      discriminate Hsum. }
    destruct (sortBy_head byCount byCount_total byCount_trans
                (emotionCounts history) Hcounts)
      as [[key n] [Hhd [Hin Hmax]]].
    exists key, n. split; [exact Hhd | ].
    pose proof (In_lookup _ _ _ Hnd Hin) as Hl.
    assert (Hn : n = occurrences key history).
    { rewrite <- Hc. unfold countOf. now rewrite Hl. }
    rewrite Forall_forall in Hpos.
    split; [exact Hn | split; [exact (Hpos _ Hin) | ]].
    intros key'. rewrite <- (Hc key'). unfold countOf.
    destruct (lookup key' (emotionCounts history)) as [n' | ] eqn:E;
      [ | lia].
    apply lookup_In in E. specialize (Hmax _ E).
    unfold byCount in Hmax. cbn [snd] in Hmax. now apply Nat.leb_le. }
  split; [ | split; [ | exact Hmost]].
  - destruct history as [ | item rest]; [discriminate | ].
    destruct Hmost as [key [n [E _]]]; [discriminate | ].
    unfold render. rewrite E. discriminate.
  - split.
    + destruct history as [ | item rest]; [reflexivity | ].
      destruct Hmost as [key [n [E _]]]; [discriminate | ].
      unfold render. rewrite E. discriminate.
    + now intros ->.
Qed.

Lemma mostCommonEmotion_defined_and_maximal_witness :
  exists key n,
    mostCommonEmotion [happyCall; angryCall; happyCall] = Some (key, n) /\
    n = occurrences key [happyCall; angryCall; happyCall] /\ (0 < n)%nat /\
    forall key',
      (occurrences key' [happyCall; angryCall; happyCall] <= n)%nat.
Proof.
  destruct (mostCommonEmotion_defined_and_maximal
              [happyCall; angryCall; happyCall]) as [_ [_ H]].
  - repeat constructor; cbn; tauto.
  - apply H. discriminate.
Defined.

Lemma emotionCounts_proto (history : list Analysis) :
  Forall (fun item => emotion item = "__proto__"%string) history ->
  emotionCounts history = [].
Proof.
  unfold emotionCounts.
  induction history as [ | item history IH] using rev_ind; intros H;
    [reflexivity | ].
  apply Forall_app in H. destruct H as [H Hitem].
  inversion Hitem as [ | ? ? E _]; subst.
  rewrite fold_left_app. cbn [fold_left]. rewrite (IH H).
  unfold bump. now rewrite E.
Qed.

(** X20.  Outside the seven names the dashboard can fail: on a non-empty
    history whose items all carry the emotion ["__proto__"] nothing is
    counted, the most common emotion is [undefined], and rendering throws
    a [TypeError] on reading its first component. *)
Theorem render_throws_on_proto (history : list Analysis) :
  history <> [] ->
  Forall (fun item => emotion item = "__proto__"%string) history ->
  emotionCounts history = [] /\
  mostCommonEmotion history = None /\
  render history = TypeError.
Proof.
  intros Hne H. pose proof (emotionCounts_proto history H) as E.
  split; [exact E | ].
  assert (Hmost : mostCommonEmotion history = None).
  { unfold mostCommonEmotion. now rewrite E. }
  split; [exact Hmost | ].
  destruct history as [ | item rest]; [congruence | ].
  unfold render. now rewrite Hmost.
Qed.

Lemma render_throws_on_proto_witness :
  emotionCounts [protoCall; protoCall] = [] /\
  mostCommonEmotion [protoCall; protoCall] = None /\
  render [protoCall; protoCall] = TypeError.
Proof.
  apply (render_throws_on_proto [protoCall; protoCall]).
  - discriminate.
  - repeat constructor.
Defined.

Lemma mapi_from_fst {A B : Type} (f : A -> B) (start : nat) (l : list A) :
  map fst (mapi_from (fun index item => (index + 1, f item)) start l)
  = seq (start + 1) (List.length l).
Proof.
  revert start. induction l as [ | x l IH]; intros start; [reflexivity | ].
  cbn [mapi_from map fst List.length seq]. f_equal. apply IH.
Qed.

(** X13.  On the history the page keeps after the analyses [rs] (oldest
    first), the satisfaction trend plots the last ten of them in the order
    in which they were made, numbered from 1, and "Recent Analyses" lists
    the last five, newest first. *)
Theorem dashboard_of_page_history (rs : list Analysis) :
  let history := Home.history (Home.after rs) in
  satisfactionTrend history
  = mapi (fun index item => (index + 1, satisfaction_score item))
         (skipn (List.length rs - 10) rs) /\
  map fst (satisfactionTrend history)
  = seq 1 (Nat.min 10 (List.length rs)) /\
  recentAnalyses history
  = mapi (fun index item => (index + 1, item)) (firstn 5 (rev rs)) /\
  List.length history = Nat.min 10 (List.length rs).
Proof.
  cbn zeta. rewrite HomeFacts.history_after.
  assert (E : satisfactionTrend (firstn 10 (rev rs))
              = mapi (fun index item => (index + 1, satisfaction_score item))
                     (skipn (List.length rs - 10) rs)).
  { unfold satisfactionTrend. rewrite firstn_firstn, Nat.min_id.
    now rewrite firstn_rev, rev_involutive. }
  split; [exact E | ]. split; [ | split].
  - rewrite E. unfold mapi. rewrite mapi_from_fst, length_skipn.
    f_equal. lia.
  - unfold recentAnalyses. rewrite firstn_firstn. reflexivity.
  - rewrite length_firstn, length_rev. reflexivity.
Qed.

End DashboardFacts.

Module NormalizerMore.
Import Normalizer NormalizerFacts.
Local Open Scope Q_scope.

(** X14.  [normalize] fails in exactly two ways: on a file that cannot be
    decoded, and on one that decodes to no sample at all (where [np.max]
    has nothing to reduce); on every other file it returns a clip. *)
Theorem normalize_fails_only_on_undecodable_or_empty {Audio : Type}
  (decode : Audio -> option (list Q)) (file_path : Audio) :
  match decode file_path with
  | None => normalize decode file_path = inl UnsupportedFormatError
  | Some [] => normalize decode file_path = inl EmptyAudioError
  | Some (_ :: _) => exists out, normalize decode file_path = inr out
  end.
Proof.
  destruct (decode file_path) as [[ | x samples] | ] eqn:E.
  - unfold normalize, load. rewrite E. rewrite firstn_nil. reflexivity.
  - destruct (normalize_decoded decode file_path (x :: samples) E)
      as [peak [_ [_ [_ H]]]]; [discriminate | ].
    eexists. exact H.
  - unfold normalize, load. now rewrite E.
Qed.

(** X15.  Padding or trimming a second time changes nothing: a clip of the
    target length is returned as it is. *)
Theorem pad_or_trim_idempotent (audio : list Q) :
  pad_or_trim (pad_or_trim audio) = pad_or_trim audio /\
  (List.length audio = max_length -> pad_or_trim audio = audio).
Proof.
  assert (H : forall a, List.length a = max_length -> pad_or_trim a = a).
  { intros a Ha. destruct (pad_or_trim_spec a) as [-> _].
    rewrite firstn_all2 by lia.
    replace (max_length - List.length a)%nat with O by lia.
    apply app_nil_r. }
  split; [ | exact (H audio)]. apply H. apply pad_or_trim_spec.
Qed.

Lemma pad_or_trim_idempotent_witness :
  pad_or_trim (repeat 0 max_length) = repeat 0 max_length.
Proof.
  apply (proj2 (pad_or_trim_idempotent (repeat 0 max_length))).
  apply repeat_length.
Defined.

End NormalizerMore.

Module ScorerMore.
Import Scorer ScorerFacts.
Local Open Scope Q_scope.

(** X17.  The score of a well-formed prediction stays on the documented
    scale: it lies between the neutral midpoint 5.0 and the base score of
    the primary emotion, hence within [1, 9] and within [0, 10]; and at
    confidence 1 it is the base score itself. *)
Theorem score_between_midpoint_and_base (p : PredictionResult) :
  well_formed p = true ->
  exists s,
    score p = inr s /\
    0 <= s <= 10 /\ 1 <= s <= 9 /\
    (5.0 <= base_score (emotion p) -> 5.0 <= s <= base_score (emotion p)) /\
    (base_score (emotion p) <= 5.0 -> base_score (emotion p) <= s <= 5.0) /\
    (confidence p == 1 -> s == base_score (emotion p)).
Proof.
  intros Hwf. unfold score. rewrite Hwf. eexists. split; [reflexivity | ].
  apply well_formed_spec in Hwf. destruct Hwf as [_ [H0 H1]].
  unfold blend.
  destruct (emotion p); cbn [base_score];
    (split; [lra | split; [lra | split; [intros; lra | split]]]);
    intros H; try lra; rewrite H; ring.
Qed.

Lemma score_between_midpoint_and_base_witness :
  exists s,
    score (predict scenario2) = inr s /\
    0 <= s <= 10 /\ 1 <= s <= 9 /\
    5.0 <= s <= base_score (emotion (predict scenario2)).
Proof.
  destruct (score_between_midpoint_and_base (predict scenario2))
    as [s [E [H10 [H9 [Hup _]]]]].
  - vm_compute. reflexivity.
  - exists s. split; [exact E | ]. split; [exact H10 | ].
    split; [exact H9 | ]. apply Hup. vm_compute. discriminate.
Defined.

End ScorerMore.

Module TrainerMore.
Import Trainer TrainerFacts.

(** Every sample belongs to exactly one of the seven classes. *)
Lemma size_by_classes {Item : Type} (l : list (Item * Emotion)) :
  size l = (count anger l + count disgust l + count fear l
            + count happiness l + count sadness l + count surprise l
            + count neutral l)%Z.
Proof.
  unfold size, count, members. induction l as [ | [x e] l IH];
    [reflexivity | ].
  cbn [filter].
  replace (has_label anger (x, e))
    with (if Emotion_eq_dec e anger then true else false) by reflexivity.
  replace (has_label disgust (x, e))
    with (if Emotion_eq_dec e disgust then true else false) by reflexivity.
  replace (has_label fear (x, e))
    with (if Emotion_eq_dec e fear then true else false) by reflexivity.
  replace (has_label happiness (x, e))
    with (if Emotion_eq_dec e happiness then true else false) by reflexivity.
  replace (has_label sadness (x, e))
    with (if Emotion_eq_dec e sadness then true else false) by reflexivity.
  replace (has_label surprise (x, e))
    with (if Emotion_eq_dec e surprise then true else false) by reflexivity.
  replace (has_label neutral (x, e))
    with (if Emotion_eq_dec e neutral then true else false) by reflexivity.
  destruct e;
    repeat match goal with
      | |- context [Emotion_eq_dec ?a ?b] =>
          destruct (Emotion_eq_dec a b); try congruence
      end;
    cbn [List.length]; lia.
Qed.

(** One proportional cut, when the proportional share is a whole number. *)
Lemma exact_share (n t nc tc k : Z) :
  (Z.abs (tc * n - t * nc) < n)%Z -> (t * nc = k * n)%Z -> tc = k.
Proof.
  intros H E. rewrite E in H.
  replace (tc * n - k * n)%Z with ((tc - k) * n)%Z in H by ring.
  apply Z.abs_lt in H. nia.
Qed.

(** X18.  When the number of samples of every class is a multiple of 20,
    a split made with a splitter that behaves as documented is exactly
    stratified: each partition holds exactly 70%, 15% and 15% of every
    class and of the corpus.  A corpus of 480 samples in such classes is
    split 336 / 72 / 72, as the documentation's table says. *)
Theorem split_exact_for_classes_of_multiples_of_20
  (Item Generator : Type) (tts : Splitter Item Generator)
  (corpus train val test : list (Item * Emotion)) (g : Generator) :
  documented tts ->
  (forall c, (count c corpus mod 20 = 0)%Z) ->
  fst (split_corpus tts corpus g) = inr (train, val, test) ->
  (forall c,
     (10 * count c train = 7 * count c corpus)%Z /\
     (20 * count c val = 3 * count c corpus)%Z /\
     (20 * count c test = 3 * count c corpus)%Z) /\
  (10 * size train = 7 * size corpus)%Z /\
  (20 * size val = 3 * size corpus)%Z /\
  (20 * size test = 3 * size corpus)%Z /\
  (size corpus = 480%Z ->
   size train = 336%Z /\ size val = 72%Z /\ size test = 72%Z).
Proof.
  intros Hdoc Hmult Hrun.
  destruct (split_corpus_inr Item Generator tts corpus train val test g Hrun)
    as [temp [g' [H1 H2]]].
  pose proof (doc_partition tts Hdoc _ _ _ _ _ _ H1) as P1.
  pose proof (doc_partition tts Hdoc _ _ _ _ _ _ H2) as P2.
  destruct (doc_size tts Hdoc _ _ _ _ _ _ H1) as [S1a S1b].
  destruct (doc_size tts Hdoc _ _ _ _ _ _ H2) as [S2a S2b].
  pose proof (share_bounds _ _ _ _ S1a S1b) as S1.
  pose proof (share_bounds _ _ _ _ S2a S2b) as S2.
  pose proof (doc_stratified tts Hdoc _ _ _ _ _ _ H1) as C1.
  pose proof (doc_stratified tts Hdoc _ _ _ _ _ _ H2) as C2.
  assert (En : (size corpus = size train + size temp)%Z)
    by (rewrite <- (size_perm _ _ P1); apply size_app).
  assert (Et : (size temp = size val + size test)%Z)
    by (rewrite <- (size_perm _ _ P2); apply size_app).
  assert (Hn : (size corpus mod 20 = 0)%Z).
  { rewrite size_by_classes.
    pose proof (Hmult anger). pose proof (Hmult disgust).
    pose proof (Hmult fear). pose proof (Hmult happiness).
    pose proof (Hmult sadness). pose proof (Hmult surprise).
    pose proof (Hmult neutral).
    repeat match goal with
      | H : (_ mod 20 = 0)%Z |- _ =>
          apply Z.mod_divide in H; [destruct H as [? ->] | lia]
      end.
    apply Z.mod_divide; [lia | ].
    eexists. rewrite <- !Z.mul_add_distr_r. reflexivity. }
  apply Z.mod_divide in Hn; [ | lia]. destruct Hn as [K HK].
  assert (Htemp : size temp = (6 * K)%Z) by lia.
  assert (Htest : size test = (3 * K)%Z) by lia.
  assert (Hval : size val = (3 * K)%Z) by lia.
  assert (Hclass : forall c,
            (10 * count c temp = 3 * count c corpus)%Z /\
            (20 * count c test = 3 * count c corpus)%Z).
  { intros c. specialize (C1 c). specialize (C2 c).
    pose proof (Hmult c) as Hc. apply Z.mod_divide in Hc; [ | lia].
    destruct Hc as [k Hk].
    assert (E1 : count c temp = (6 * k)%Z).
    { apply (exact_share (size corpus) (size temp) (count c corpus));
        [exact C1 | ]. rewrite Htemp, Hk, HK. ring. }
    assert (E2 : count c test = (3 * k)%Z).
    { apply (exact_share (size temp) (size test) (count c temp));
        [exact C2 | ]. rewrite Htest, Htemp, E1. ring. }
    lia. }
  split; [ | lia].
  intros c. destruct (Hclass c) as [Ht Hte].
  assert (Enc : (count c corpus = count c train + count c temp)%Z)
    by (rewrite <- (count_perm c _ _ P1); apply count_app).
  assert (Etc : (count c temp = count c val + count c test)%Z)
    by (rewrite <- (count_perm c _ _ P2); apply count_app).
  lia.
Qed.

Lemma split_exact_for_classes_of_multiples_of_20_witness :
  exists train val test,
    fst (split_corpus (@exact_split nat unit) corpus40 tt)
    = inr (train, val, test) /\
    (10 * count happiness train = 7 * count happiness corpus40)%Z /\
    (20 * size val = 3 * size corpus40)%Z.
Proof.
  destruct (fst (split_corpus (@exact_split nat unit) corpus40 tt))
    as [e | [[train val] test]] eqn:E.
  - vm_compute in E. discriminate.
  - exists train, val, test. split; [reflexivity | ].
    destruct (split_exact_for_classes_of_multiples_of_20 nat unit
                exact_split corpus40 train val test tt
                (exact_split_documented unit))
      as [Hc [_ [Hv _]]].
    + intros c. destruct c; reflexivity.
    + exact E.
    + split; [apply (Hc happiness) | exact Hv].
Defined.

End TrainerMore.

